(** * Baichuan message decoding (neolink, src/bc/de.rs)

    A shallow embedding of the streaming decoder of the Baichuan camera
    protocol: the header parser [bc_header], the body dispatcher [bc_body],
    the legacy and modern body decoders, and the incremental reader driver
    [read_from_reader] together with the fragment of nom 5 they are built on.

    Collaborators defined outside de.rs (the constants and predicates of
    model.rs, the XML codec of xml.rs, the obfuscation of xml_crypto.rs and
    the session context) are section parameters: every theorem below holds
    for all of them. *)

From Stdlib Require Import String ZArith List Lia Bool.
From Stdlib Require Import Strings.Byte.
Import ListNotations.

Open Scope Z_scope.

(** ** Bytes *)

(** An unsigned byte read as an integer. *)
Definition u8 (b : byte) : Z := Z.of_N (Byte.to_N b).

(** Little-endian value of a byte sequence. *)
Fixpoint le_value (bs : list byte) : Z :=
  match bs with
  | [] => 0
  | b :: r => u8 b + 256 * le_value r
  end.

(** ** The fragment of nom 5 used by de.rs (streaming parsers on [&[u8]]) *)

Module Nom.

Inductive Needed : Type :=
| Unknown
| Size (n : Z).

Inductive ErrorKind : Type :=
| Verify
| MapRes.

(** [nom::Err<(&[u8], ErrorKind)>] *)
Inductive Err : Type :=
| Incomplete (n : Needed)
| Error (input : list byte) (k : ErrorKind)
| Failure (input : list byte) (k : ErrorKind).

(** [IResult<&[u8], O>]: the remaining input and the output, or an error. *)
Inductive IResult (O : Type) : Type :=
| IOk (rest : list byte) (out : O)
| IErr (e : Err).

Arguments IOk {O} rest out.
Arguments IErr {O} e.

(** The [?] operator inside a parser: propagate the error unchanged. *)
Definition bind {A B} (r : IResult A) (k : list byte -> A -> IResult B)
  : IResult B :=
  match r with
  | IOk rest a => k rest a
  | IErr e => IErr e
  end.

Definition Parser (O : Type) := list byte -> IResult O.

(** [number::streaming::le_u8] *)
Definition le_u8 : Parser Z := fun i =>
  match i with
  | b :: r => IOk r (u8 b)
  | [] => IErr (Incomplete (Size 1))
  end.

(** [number::streaming::le_u16] *)
Definition le_u16 : Parser Z := fun i =>
  if (Z.of_nat (length i) <? 2)%Z then IErr (Incomplete (Size 2))
  else IOk (skipn 2 i) (le_value (firstn 2 i)).

(** [number::streaming::le_u32] *)
Definition le_u32 : Parser Z := fun i =>
  if (Z.of_nat (length i) <? 4)%Z then IErr (Incomplete (Size 4))
  else IOk (skipn 4 i) (le_value (firstn 4 i)).

(** [bytes::streaming::take]: on a short slice nom 5 reports
    [Needed::Size(count)]. *)
Definition take (count : Z) : Parser (list byte) := fun i =>
  if (Z.of_nat (length i) <? count)%Z then IErr (Incomplete (Size count))
  else IOk (skipn (Z.to_nat count) i) (firstn (Z.to_nat count) i).

(** [combinator::verify]: the error points at the original input. *)
Definition verify {O} (p : Parser O) (pred : O -> bool) : Parser O := fun i =>
  match p i with
  | IOk r o => if pred o then IOk r o else IErr (Error i Verify)
  | IErr e => IErr e
  end.

(** [combinator::map_res] *)
Definition map_res {O1 O2} (p : Parser O1) (f : O1 -> option O2)
  : Parser O2 := fun i =>
  match p i with
  | IOk r o => match f o with
               | Some o' => IOk r o'
               | None => IErr (Error i MapRes)
               end
  | IErr e => IErr e
  end.

(** [combinator::cond] *)
Definition cond {O} (b : bool) (p : Parser O) : Parser (option O) := fun i =>
  if b then match p i with
            | IOk r o => IOk r (Some o)
            | IErr e => IErr e
            end
  else IOk i None.

(** [sequence::tuple] on three parsers *)
Definition tuple3 {A B C} (pa : Parser A) (pb : Parser B) (pc : Parser C)
  : Parser (A * B * C) := fun i =>
  bind (pa i) (fun i a =>
  bind (pb i) (fun i b =>
  bind (pc i) (fun i c => IOk i (a, b, c)))).

End Nom.

Import Nom.

Notation "'let?' ( b , x ) := p 'in' k" := (Nom.bind p (fun b x => k))
  (at level 200, b ident, x ident, p at level 100, k at level 200).

(** ** Data model (src/bc/model.rs) *)

Record BcHeader : Type := mkBcHeader {
  msg_id : Z;
  body_len : Z;
  enc_offset : Z;
  encrypted : bool;
  class : Z;
  payload_offset : option Z
}.

(** Modelled from the spec: [BcHeader::is_encrypted] (model.rs) is the
    [encrypted] flag of the header. *)
Definition is_encrypted (h : BcHeader) : bool := encrypted h.

(** A Rust [String]: its UTF-8 bytes. *)
Definition RString := list byte.

(** Wrapping [u32] subtraction, as a release build computes [a - b]
    (a debug build panics instead when [b > a]). *)
Definition u32_sub (a b : Z) : Z := (a - b) mod 2 ^ 32.

(** ** [String::from_utf8]: the validation of core::str::validations *)

Definition utf8_cont (c : byte) : bool := (0x80 <=? u8 c) && (u8 c <=? 0xBF).

Definition in_range (lo x hi : Z) : bool := (lo <=? x) && (x <=? hi).

(** Second byte of a three-byte sequence, by the first byte. *)
Definition utf8_second3 (first second : Z) : bool :=
  (first =? 0xE0) && in_range 0xA0 second 0xBF
  || in_range 0xE1 first 0xEC && in_range 0x80 second 0xBF
  || (first =? 0xED) && in_range 0x80 second 0x9F
  || in_range 0xEE first 0xEF && in_range 0x80 second 0xBF.

(** Second byte of a four-byte sequence, by the first byte. *)
Definition utf8_second4 (first second : Z) : bool :=
  (first =? 0xF0) && in_range 0x90 second 0xBF
  || in_range 0xF1 first 0xF3 && in_range 0x80 second 0xBF
  || (first =? 0xF4) && in_range 0x80 second 0x8F.

Fixpoint utf8_valid (bs : list byte) : bool :=
  match bs with
  | [] => true
  | b :: r =>
      let first := u8 b in
      if first <? 128 then utf8_valid r
      else if in_range 0xC2 first 0xDF then
        match r with
        | c1 :: r' => utf8_cont c1 && utf8_valid r'
        | [] => false
        end
      else if in_range 0xE0 first 0xEF then
        match r with
        | c1 :: c2 :: r' =>
            utf8_second3 first (u8 c1) && utf8_cont c2 && utf8_valid r'
        | _ => false
        end
      else if in_range 0xF0 first 0xF4 then
        match r with
        | c1 :: c2 :: c3 :: r' =>
            utf8_second4 first (u8 c1) && utf8_cont c2 && utf8_cont c3
            && utf8_valid r'
        | _ => false
        end
      else false
  end.

(** [String::from_utf8(v)]: the bytes themselves when they are UTF-8. *)
Definition from_utf8 (v : list byte) : option RString :=
  if utf8_valid v then Some v else None.

(** ** Errors of de.rs *)

Inductive IoErrorKind : Type :=
| UnexpectedEof
| Interrupted
| OtherIo.

(** [de::Error] *)
Inductive Error : Type :=
| NomError (reason : string)
| IoError (k : IoErrorKind).

(** [impl From<nom::Err<NomErrorTuple>> for Error] *)
Definition error_of_nom (k : Nom.Err) : Error :=
  NomError (match k with
            | Nom.Error _ _ => "Nom Error"
            | Nom.Failure _ _ => "Nom Failure"
            | _ => "Unknown Nom error"
            end)%string.

(** [std::result::Result] *)
Inductive Result (A E : Type) : Type :=
| Ok (a : A)
| Err (e : E).

Arguments Ok {A E} a.
Arguments Err {A E} e.

(** ** Byte sources

    A reader is the sequence of answers its [read] calls give: a chunk of
    bytes (an empty chunk is a [read] returning 0) or an I/O error. The end
    of the list is end of stream. *)

Inductive ReadEvent : Type :=
| Chunk (bs : list byte)
| IoFail (k : IoErrorKind).

Definition Reader := list ReadEvent.

(** [(&mut rdr).take(limit).read_to_end(&mut input)]: read until [limit]
    bytes have arrived or a [read] returns 0; [Interrupted] is retried,
    another I/O error stops the call. Returns the bytes appended to [input],
    the error if any, and the reader afterwards. *)
Fixpoint take_read_to_end (limit : Z) (r : Reader) {struct r}
  : list byte * option IoErrorKind * Reader :=
  if limit <=? 0 then ([], None, r) else
  match r with
  | [] => ([], None, [])
  | IoFail Interrupted :: r' => take_read_to_end limit r'
  | IoFail k :: r' => ([], Some k, r')
  | Chunk [] :: r' => ([], None, r')
  | Chunk bs :: r' =>
      if Z.of_nat (length bs) <=? limit then
        let '(more, e, r'') := take_read_to_end (limit - Z.of_nat (length bs)) r' in
        (bs ++ more, e, r'')
      else (firstn (Z.to_nat limit) bs, None, Chunk (skipn (Z.to_nat limit) bs) :: r')
  end.

(** [read_from_reader]: the [loop] of the driver, run for at most [fuel]
    iterations ([None] when the loop is still running). The reader state is
    returned with the result. *)
Fixpoint read_loop {Out} (fuel : nat) (parser : Parser Out) (input : list byte)
  (rdr : Reader) : option (Result Out Error) * Reader :=
  match fuel with
  | O => (None, rdr)
  | S fuel' =>
      match parser input with
      | IOk _ parsed => (Some (Ok parsed), rdr)
      | IErr (Incomplete needed) =>
          let to_read := match needed with
                         | Unknown => 1
                         | Size len => len
                         end in
          match take_read_to_end to_read rdr with
          | (_, Some k, rdr') => (Some (Err (IoError k)), rdr')
          | (got, None, rdr') =>
              if (length got =? 0)%nat
              then (Some (Err (IoError UnexpectedEof)), rdr')
              else read_loop fuel' parser (input ++ got) rdr'
          end
      | IErr e => (Some (Err (error_of_nom e)), rdr)
      end
  end.

Definition read_from_reader {Out} (fuel : nat) (parser : Parser Out) (rdr : Reader)
  : option (Result Out Error) * Reader :=
  read_loop fuel parser [] rdr.

(** ** Instances of the collaborators, for concrete runs *)

Definition byte_of_Z (z : Z) : byte :=
  match Byte.of_N (Z.to_N (z mod 256)) with
  | Some b => b
  | None => x00
  end.

(** Modelled from the spec: model.rs is not part of src. One fixed magic
    constant; the login message id 1 of the tests of de.rs; a fixed table
    of classes with a payload offset (0x6414 and 0x0000), and class 0x6514
    as the legacy era, as the tests of de.rs name these classes. *)
Definition inst_MAGIC_HEADER : Z := 0x0abcdef0.
Definition inst_MSG_ID_LOGIN : Z := 1.
Definition inst_has_payload_offset (class : Z) : bool :=
  (class =? 0x6414) || (class =? 0x0000).
Definition inst_is_modern (h : BcHeader) : bool := negb (class h =? 0x6514).

(** Modelled from the spec: xml_crypto::crypt, a length-preserving,
    symmetric obfuscation keyed by the offset and the position: each byte
    is XORed with a key byte chosen by position plus offset and with the
    low byte of the offset. *)
Definition inst_key : list Z := [0x1F; 0x2D; 0x3C; 0x4B; 0x5A; 0x69; 0x78; 0xFF].

Fixpoint inst_crypt_from (offset pos : Z) (buf : list byte) : list byte :=
  match buf with
  | [] => []
  | b :: r =>
      byte_of_Z (Z.lxor (Z.lxor (u8 b) (nth (Z.to_nat ((pos + offset) mod 8)) inst_key 0))
                        (offset mod 256))
      :: inst_crypt_from offset (pos + 1) r
  end.

Definition inst_crypt (offset : Z) (buf : list byte) : list byte :=
  inst_crypt_from offset 0 buf.

(** Modelled from the spec: the XML codec of xml.rs, reduced to the first
    check a parser makes (a document starts with '<'); the parsed document
    is represented by its bytes. *)
Definition inst_xml_parse (bs : list byte) : option (list byte) :=
  match bs with
  | b :: _ => if Byte.eqb b "<"%byte then Some bs else None
  | [] => None
  end.

(** A modern header: magic, msg_id 1, body_len 2, enc_offset 0x1000000,
    response_code 1, class 0x6414, payload_offset 1. *)
Definition demo_header : list byte :=
  [xf0; xde; xbc; x0a;  x01; x00; x00; x00;  x02; x00; x00; x00;
   x00; x00; x00; x01;  x01; x00; x14; x64;  x01; x00; x00; x00].

(** The legacy login body of the test of de.rs: an MD5-hex username padded
    with a NUL byte, then a password field of NUL bytes. *)
Definition demo_legacy_body : list byte :=
  list_byte_of_string "21232F297A57A5A743894A0E4A801FC" ++ [x00] ++ repeat x00 32.

(** ** Encoding and observation helpers *)

(** The [n] low bytes of [v], least significant first: the little-endian
    layout the number parsers read. *)
Fixpoint le_bytes (n : nat) (v : Z) : list byte :=
  match n with
  | O => []
  | S n' => byte_of_Z v :: le_bytes n' (v / 256)
  end.

(** A byte source with its [Interrupted] answers removed. *)
Definition drop_interrupted (r : Reader) : Reader :=
  filter (fun e => match e with IoFail Interrupted => false | _ => true end) r.

(** A parse result of the header parser: a success, a request for 1, 2 or
    4 more bytes, or a hard error. *)
Definition small_request {A} (r : IResult A) : bool :=
  match r with
  | IOk _ _ => true
  | IErr (Incomplete (Size n)) => (n =? 1) || (n =? 2) || (n =? 4)
  | IErr (Incomplete Unknown) => false
  | IErr (Nom.Error _ _) => true
  | IErr (Nom.Failure _ _) => false
  end.

(** A parse result that is not a [Failure] and that, when it asks for more
    bytes, asks for a known, positive number of them. *)
Definition definite {A} (r : IResult A) : bool :=
  match r with
  | IOk _ _ => true
  | IErr (Incomplete (Size n)) => 0 <? n
  | IErr (Incomplete Unknown) => false
  | IErr (Nom.Error _ _) => true
  | IErr (Nom.Failure _ _) => false
  end.

(** A parser whose successes survive bytes appended to its input: what it
    consumed and produced stays the same and the new bytes are left over. *)
Definition app_stable {O} (p : Parser O) : Prop :=
  forall buf rest o y, p buf = IOk rest o -> p (buf ++ y) = IOk (rest ++ y) o.

(** The parser [p], run on the first [j] bytes of the stream [s], asks in
    turn for the numbers of bytes listed in [steps], each time receiving
    them, and then yields [o]. *)
Fixpoint drives {Out} (p : Parser Out) (s : list byte) (j : nat)
  (steps : list nat) (o : Out) : Prop :=
  match steps with
  | [] => exists rest, p (firstn j s) = IOk rest o
  | n :: st =>
      p (firstn j s) = IErr (Incomplete (Size (Z.of_nat n))) /\ (0 < n)%nat /\
      drives p s (j + n) st o
  end.

(** A complete modern message in clear: magic, msg_id 1, body_len 2,
    enc_offset 0, response_code 0, class 0x6414, payload_offset 1, then
    the xml segment ['<'] and the payload segment ['<']. *)
Definition demo_message : list byte :=
  [xf0; xde; xbc; x0a;  x01; x00; x00; x00;  x02; x00; x00; x00;
   x00; x00; x00; x00;  x00; x00; x14; x64;  x01; x00; x00; x00;
   "<"%byte; "<"%byte].

(** ** The decoder *)

Section Decoder.

(** The session context, the header summary and the two XML document types
    (model.rs, xml.rs). *)
Context {BcContext BcMeta BcXmls BcXml : Type}.

(** model.rs: the magic constant, the login message id, the table of
    classes with a payload offset, the era flag and the header summary. *)
Context {MAGIC_HEADER MSG_ID_LOGIN : Z}.
Context {has_payload_offset : Z -> bool}.
Context {is_modern : BcHeader -> bool}.
Context {to_meta : BcHeader -> BcMeta}.

(** xml.rs: [BcXmls::try_parse] and [BcXml::try_parse]. *)
Context {bcxmls_try_parse : list byte -> option BcXmls}.
Context {bcxml_try_parse : list byte -> option BcXml}.

(** xml_crypto.rs: [crypt(offset, buf)]. *)
Context {crypt : Z -> list byte -> list byte}.

Inductive BcPayloads : Type :=
| PayloadXml (x : BcXml)
| PayloadBinary (bin : list byte).

Record ModernMsg : Type := mkModernMsg {
  xml : option BcXmls;
  payload : option BcPayloads
}.

Inductive LegacyMsg : Type :=
| LoginMsg (username password : RString)
| UnknownMsg.

Inductive BcBody : Type :=
| ModernMsgBody (m : ModernMsg)
| LegacyMsgBody (m : LegacyMsg).

Record Bc : Type := mkBc {
  meta : BcMeta;
  body : BcBody
}.

(** [bc_header] *)
Definition bc_header : Parser BcHeader := fun buf =>
  let? (buf, _magic) := verify le_u32 (fun x => x =? MAGIC_HEADER) buf in
  let? (buf, msg_id) := le_u32 buf in
  let? (buf, body_len) := le_u32 buf in
  let? (buf, enc_offset) := le_u32 buf in
  let? (buf, fields) := tuple3 le_u8 le_u8 le_u16 buf in
  let '(response_code, _ignored, class) := fields in
  let encrypted := negb (response_code =? 0) in
  let? (buf, payload_offset) := cond (has_payload_offset class) le_u32 buf in
  IOk buf (mkBcHeader msg_id body_len enc_offset encrypted class payload_offset).

(** [hex32] *)
Definition hex32 : Parser RString := map_res (take 32) from_utf8.

(** [bc_legacy_login_msg] *)
Definition bc_legacy_login_msg : Parser LegacyMsg := fun buf =>
  let? (buf, username) := hex32 buf in
  let? (buf, password) := hex32 buf in
  IOk buf (LoginMsg username password).

(** [bc_modern_msg]; the context is not used. *)
Definition bc_modern_msg (context : BcContext) (header : BcHeader)
  : Parser ModernMsg := fun buf =>
  let xml_len := match payload_offset header with
                 | Some off => off
                 | None => body_len header
                 end in
  let? (buf, xml_buf) := take xml_len buf in
  let payload_len := u32_sub (body_len header) xml_len in
  let? (buf, payload_buf) := take payload_len buf in
  let processed_xml_buf :=
    if negb (is_encrypted header) then xml_buf
    else crypt (enc_offset header) xml_buf in
  let xml_result :=
    if 0 <? xml_len then
      match bcxmls_try_parse processed_xml_buf with
      | Some parsed => IOk buf (Some parsed)
      | None => IErr (Nom.Error buf MapRes)
      end
    else IOk buf None in
  let? (buf, xml) := xml_result in
  let payload :=
    if 0 <? payload_len then
      let processed_payload_buf :=
        if negb (is_encrypted header) then xml_buf
        else crypt (enc_offset header) payload_buf in
      match bcxml_try_parse processed_payload_buf with
      | Some x => Some (PayloadXml x)
      | None => Some (PayloadBinary payload_buf)
      end
    else None in
  IOk buf (mkModernMsg xml payload).

(** [bc_body] *)
Definition bc_body (context : BcContext) (header : BcHeader) : Parser BcBody :=
  fun buf =>
  if is_modern header then
    let? (buf, body) := bc_modern_msg context header buf in
    IOk buf (ModernMsgBody body)
  else
    let? (buf, body) :=
      (if msg_id header =? MSG_ID_LOGIN then bc_legacy_login_msg buf
       else IOk buf UnknownMsg) in
    IOk buf (LegacyMsgBody body).

(** [bc_msg] *)
Definition bc_msg (context : BcContext) : Parser Bc := fun buf =>
  let? (buf, header) := bc_header buf in
  let? (buf, body) := bc_body context header buf in
  IOk buf (mkBc (to_meta header) body).

(** [Bc::deserialize] *)
Definition deserialize (fuel : nat) (context : BcContext) (r : Reader)
  : option (Result Bc Error) * Reader :=
  read_from_reader fuel (bc_msg context) r.

(** The wire layout [bc_header] reads, for a header whose encrypted flag is
    written as response_code 1 (or 0 when clear) and whose ignored byte is
    0. *)
Definition header_bytes (h : BcHeader) : list byte :=
  le_bytes 4 MAGIC_HEADER ++ le_bytes 4 (msg_id h) ++ le_bytes 4 (body_len h) ++
  le_bytes 4 (enc_offset h) ++ le_bytes 1 (if encrypted h then 1 else 0) ++
  le_bytes 1 0 ++ le_bytes 2 (class h) ++
  match payload_offset h with
  | Some o => le_bytes 4 o
  | None => []
  end.

(** *** The nom primitives *)

Lemma take_enough (c : Z) (i : list byte) :
  0 <= c <= Z.of_nat (length i) ->
  take c i = IOk (skipn (Z.to_nat c) i) (firstn (Z.to_nat c) i).
Proof.
  intros H. unfold take. destruct (Z.ltb_spec (Z.of_nat (length i)) c); [lia|].
  reflexivity.
Qed.

Lemma take_short (c : Z) (i : list byte) :
  Z.of_nat (length i) < c -> take c i = IErr (Incomplete (Size c)).
Proof.
  intros H. unfold take. destruct (Z.ltb_spec (Z.of_nat (length i)) c); [|lia].
  reflexivity.
Qed.

Lemma le_u32_cons (a b c d : byte) (r : list byte) :
  le_u32 (a :: b :: c :: d :: r) = IOk r (le_value [a; b; c; d]).
Proof.
  unfold le_u32. cbn [length firstn skipn].
  destruct (Z.ltb_spec (Z.of_nat (S (S (S (S (length r)))))) 4); [lia|].
  reflexivity.
Qed.

Lemma le_u16_cons (a b : byte) (r : list byte) :
  le_u16 (a :: b :: r) = IOk r (le_value [a; b]).
Proof.
  unfold le_u16. cbn [length firstn skipn].
  destruct (Z.ltb_spec (Z.of_nat (S (S (length r)))) 2); [lia|].
  reflexivity.
Qed.

Lemma le_u32_short (i : list byte) :
  (length i < 4)%nat -> le_u32 i = IErr (Incomplete (Size 4)).
Proof.
  intros H. unfold le_u32. destruct (Z.ltb_spec (Z.of_nat (length i)) 4); [|lia].
  reflexivity.
Qed.

Lemma le_value_bounds (bs : list byte) :
  0 <= le_value bs < 2 ^ (8 * Z.of_nat (length bs)).
Proof.
  induction bs as [|b r IH]; cbn [le_value length].
  - simpl. lia.
  - assert (Hb : 0 <= u8 b <= 255).
    { unfold u8. pose proof (Byte.to_N_bounded b). lia. }
    rewrite Nat2Z.inj_succ, Z.mul_succ_r, Z.pow_add_r by lia.
    change (2 ^ 8) with 256. lia.
Qed.

(** Destruct the first [n] bytes of a list known to be long enough. *)
Ltac bytes_prefix l n :=
  match n with
  | O => idtac
  | S ?m => let b := fresh "b" in
            destruct l as [|b l]; [cbn [length] in *; lia|];
            bytes_prefix l m
  end.

(** *** The header parser *)

(** The field of [len] bytes at offset [off], read little-endian. *)
Definition field (off len : nat) (buf : list byte) : Z :=
  le_value (firstn len (skipn off buf)).

(** A parse result that is a success or a request for more bytes. *)
Definition soft {A} (r : IResult A) : bool :=
  match r with
  | IOk _ _ => true
  | IErr (Incomplete _) => true
  | IErr _ => false
  end.

Lemma soft_le_u32 (i : list byte) : soft (le_u32 i) = true.
Proof.
  unfold le_u32. destruct (_ <? _); reflexivity.
Qed.

Lemma soft_bind {A B} (r : IResult A) (k : list byte -> A -> IResult B) :
  soft r = true -> (forall i a, soft (k i a) = true) -> soft (bind r k) = true.
Proof.
  intros Hr Hk. destruct r as [i a|[n| |]]; cbn in *; auto; discriminate.
Qed.

Lemma soft_tuple3_header (i : list byte) :
  soft (tuple3 le_u8 le_u8 le_u16 i) = true.
Proof.
  unfold tuple3, le_u8.
  destruct i as [|c0 [|c1 [|c2 [|c3 i]]]]; try reflexivity.
  cbn [bind]. rewrite le_u16_cons. reflexivity.
Qed.

(** A header whose magic matches never fails for another reason than
    missing bytes. *)
Lemma bc_header_after_magic_soft (buf : list byte) :
  (4 <= length buf)%nat ->
  field 0 4 buf = MAGIC_HEADER ->
  soft (bc_header buf) = true.
Proof.
  intros Hlen Hm. unfold field in Hm. cbn [skipn] in Hm.
  bytes_prefix buf 4%nat.
  unfold bc_header, verify. rewrite le_u32_cons.
  cbn [firstn] in Hm. rewrite Hm, Z.eqb_refl. cbn [bind].
  repeat (apply soft_bind; [apply soft_le_u32|intros ? ?]).
  apply soft_bind; [apply soft_tuple3_header|].
  intros i' [[rc ign] cls]. apply soft_bind.
  + unfold cond. destruct (has_payload_offset cls); [|reflexivity].
    unfold le_u32. destruct (_ <? _); reflexivity.
  + reflexivity.
Qed.

(** The header as the wire layout describes it: magic, msg_id, body_len,
    enc_offset (4 bytes each), response_code, one ignored byte, class
    (2 bytes), then the payload offset (4 bytes) when the class has one. *)
Lemma bc_header_layout (buf : list byte) :
  (20 <= length buf)%nat ->
  field 0 4 buf = MAGIC_HEADER ->
  bc_header buf =
    let cls := field 18 2 buf in
    let mk po := mkBcHeader (field 4 4 buf) (field 8 4 buf) (field 12 4 buf)
                   (negb (field 16 1 buf =? 0)) cls po in
    if has_payload_offset cls then
      if (24 <=? length buf)%nat
      then IOk (skipn 24 buf) (mk (Some (field 20 4 buf)))
      else IErr (Incomplete (Size 4))
    else IOk (skipn 20 buf) (mk None).
Proof.
  intros Hlen Hm. bytes_prefix buf 20%nat.
  unfold field in *. cbn [skipn firstn] in *.
  unfold bc_header, verify. rewrite le_u32_cons, Hm, Z.eqb_refl. cbn [bind].
  unfold tuple3, le_u8.
  repeat (first [rewrite le_u32_cons | rewrite le_u16_cons]; cbn [bind]).
  cbn [le_value]. rewrite ?Z.mul_0_r, ?Z.add_0_r.
  unfold cond. destruct (has_payload_offset _); [|reflexivity].
  match goal with |- context [(?a <=? ?b)%nat] => destruct (Nat.leb_spec a b) end;
    cbn [length] in *.
  - bytes_prefix buf 4%nat. rewrite le_u32_cons. reflexivity.
  - rewrite le_u32_short by lia. reflexivity.
Qed.

(** *** The modern decoder *)

(** [xml_len] of [bc_modern_msg]: the payload offset, or the body length. *)
Definition xml_len_of (h : BcHeader) : Z :=
  match payload_offset h with
  | Some off => off
  | None => body_len h
  end.

Lemma length_firstn_le (n : nat) (l : list byte) :
  (n <= length l)%nat -> length (firstn n l) = n.
Proof. intros H. rewrite length_firstn. lia. Qed.

(** [bc_modern_msg] on a buffer holding the whole body, when the payload
    offset does not exceed the body length. *)
Lemma bc_modern_msg_split (context : BcContext) (h : BcHeader) (buf : list byte) :
  0 <= xml_len_of h <= body_len h ->
  body_len h < 2 ^ 32 ->
  body_len h <= Z.of_nat (length buf) ->
  bc_modern_msg context h buf =
    let L := xml_len_of h in
    let xml_buf := firstn (Z.to_nat L) buf in
    let payload_buf := firstn (Z.to_nat (body_len h - L)) (skipn (Z.to_nat L) buf) in
    let rest := skipn (Z.to_nat (body_len h)) buf in
    let processed_xml :=
      if is_encrypted h then crypt (enc_offset h) xml_buf else xml_buf in
    let processed_payload :=
      if is_encrypted h then crypt (enc_offset h) payload_buf else xml_buf in
    match (if 0 <? L then option_map Some (bcxmls_try_parse processed_xml)
           else Some None) with
    | None => IErr (Nom.Error rest MapRes)
    | Some x =>
        IOk rest (mkModernMsg x
          (if 0 <? body_len h - L then
             Some (match bcxml_try_parse processed_payload with
                   | Some p => PayloadXml p
                   | None => PayloadBinary payload_buf
                   end)
           else None))
    end.
Proof.
  intros HL Hb Hbuf. unfold bc_modern_msg.
  fold (xml_len_of h). set (L := xml_len_of h) in *.
  rewrite take_enough by lia. cbn [bind].
  assert (Hsub : u32_sub (body_len h) L = body_len h - L).
  { unfold u32_sub. apply Z.mod_small. lia. }
  rewrite Hsub.
  rewrite take_enough.
  2:{ rewrite length_skipn. lia. }
  cbn [bind]. rewrite skipn_skipn.
  replace (Z.to_nat (body_len h - L) + Z.to_nat L)%nat with (Z.to_nat (body_len h)) by lia.
  cbn zeta. unfold is_encrypted.
  destruct (encrypted h); cbn [negb];
    destruct (0 <? L); cbn [option_map bind];
    try destruct (bcxmls_try_parse _); cbn [option_map bind];
    destruct (0 <? body_len h - L); try reflexivity;
    destruct (bcxml_try_parse _); reflexivity.
Qed.

(** *** The legacy decoder *)

Lemma hex32_enough (buf : list byte) :
  (32 <= length buf)%nat ->
  hex32 buf = if utf8_valid (firstn 32 buf)
              then IOk (skipn 32 buf) (firstn 32 buf)
              else IErr (Nom.Error buf MapRes).
Proof.
  intros H. unfold hex32, map_res. rewrite take_enough by lia.
  unfold from_utf8. destruct (utf8_valid _); reflexivity.
Qed.

Lemma hex32_short (buf : list byte) :
  (length buf < 32)%nat -> hex32 buf = IErr (Incomplete (Size 32)).
Proof.
  intros H. unfold hex32, map_res. rewrite take_short by lia. reflexivity.
Qed.

(** *** The reader *)

Definition nonempty (c : list byte) : Prop := c <> [].

(** On a reader that only delivers data, [take(n).read_to_end] appends the
    next [n] bytes of the stream, or all of them if fewer remain. *)
Lemma take_read_to_end_chunks (n : Z) (cs : list (list byte)) :
  Forall nonempty cs ->
  exists cs', Forall nonempty cs' /\
    concat cs' = skipn (Z.to_nat n) (concat cs) /\
    take_read_to_end n (map Chunk cs) =
      (firstn (Z.to_nat n) (concat cs), None, map Chunk cs').
Proof.
  revert n. induction cs as [|c cs IH]; intros n Hcs.
  - exists []. cbn. rewrite firstn_nil, skipn_nil.
    split; [constructor|]. split; [reflexivity|].
    destruct (n <=? 0); reflexivity.
  - inversion Hcs as [|? ? Hc Hcs']; subst.
    destruct c as [|x c0]; [contradiction|].
    cbn [map concat take_read_to_end].
    remember (x :: c0) as c eqn:Ec.
    destruct (Z.leb_spec n 0) as [Hn|Hn].
    + exists (c :: cs). replace (Z.to_nat n) with 0%nat by lia.
      split; [subst; assumption|]. split; reflexivity.
    + destruct (Z.leb_spec (Z.of_nat (length c)) n) as [Hl|Hl].
      * destruct (IH (n - Z.of_nat (length c)) Hcs') as (cs' & Hne & Hcat & E).
        rewrite E. exists cs'. split; [assumption|].
        rewrite firstn_app, skipn_app, (firstn_all2 (n:=Z.to_nat n) c), (skipn_all2 (n:=Z.to_nat n) c)
          by lia.
        replace (Z.to_nat n - length c)%nat with (Z.to_nat (n - Z.of_nat (length c)))
          by lia.
        split; [exact Hcat|reflexivity].
      * exists (skipn (Z.to_nat n) c :: cs). split.
        { constructor; [|assumption]. intros E.
          apply (f_equal (@length byte)) in E. rewrite length_skipn in E.
          cbn [length] in E. lia. }
        rewrite firstn_app, skipn_app.
        replace (Z.to_nat n - length c)%nat with 0%nat by lia.
        rewrite firstn_O, skipn_O, app_nil_r. split; reflexivity.
Qed.

Lemma concat_nonempty_nil (cs : list (list byte)) :
  Forall nonempty cs -> concat cs = [] -> cs = [].
Proof.
  intros Hcs E. destruct cs as [|c cs]; [reflexivity|].
  inversion Hcs as [|? ? Hc _]; subst. cbn in E.
  apply app_eq_nil in E. destruct E. contradiction.
Qed.

Lemma read_loop_ext {Out} (fuel : nat) (p1 p2 : Parser Out) (input : list byte)
  (r : Reader) :
  (forall b, p1 b = p2 b) -> read_loop fuel p1 input r = read_loop fuel p2 input r.
Proof.
  intros Hp. revert input r. induction fuel as [|fuel IH]; intros input r;
    [reflexivity|].
  cbn [read_loop]. rewrite Hp.
  destruct (p2 input) as [rest o|[needed| |]]; try reflexivity.
  destruct (take_read_to_end _ r) as [[got [k|]] r']; [reflexivity|].
  destruct (length got =? 0)%nat; [reflexivity|]. apply IH.
Qed.

(** ** Claims *)

(** C3: on a buffer of at least 4 bytes whose first 4 bytes, read
    little-endian, differ from the magic constant, the header parser and
    the whole message parser fail with a hard nom [Error] (not
    [Incomplete]); when they equal the magic constant the parser goes on:
    it fails only for want of bytes, and with 24 bytes it yields a header
    and consumes the fields after the magic. *)
Theorem bc_header_magic (buf : list byte) (Hlen : (4 <= length buf)%nat) :
  (field 0 4 buf <> MAGIC_HEADER ->
     bc_header buf = IErr (Nom.Error buf Verify) /\
     forall context, bc_msg context buf = IErr (Nom.Error buf Verify)) /\
  (field 0 4 buf = MAGIC_HEADER ->
     soft (bc_header buf) = true /\
     ((24 <= length buf)%nat ->
        exists h, bc_header buf =
          IOk (skipn (if has_payload_offset (field 18 2 buf) then 24 else 20) buf) h)).
Proof.
  split.
  - intros Hm.
    assert (E : bc_header buf = IErr (Nom.Error buf Verify)).
    { unfold field in Hm. cbn [skipn] in Hm.
      unfold bc_header, verify. unfold le_u32 at 1.
      destruct (Z.ltb_spec (Z.of_nat (length buf)) 4); [lia|].
      destruct (Z.eqb_spec (le_value (firstn 4 buf)) MAGIC_HEADER); [contradiction|].
      reflexivity. }
    split; [exact E|]. intros context. unfold bc_msg. rewrite E. reflexivity.
  - intros Hm. split; [apply bc_header_after_magic_soft; assumption|].
    intros H24. rewrite bc_header_layout by (assumption || lia). cbn zeta.
    destruct (has_payload_offset _).
    + destruct (Nat.leb_spec 24 (length buf)); [|lia]. eexists. reflexivity.
    + eexists. reflexivity.
Qed.

(** C4: the header parser reads, in this order and little-endian, the
    magic (4 bytes), msg_id (4), body_len (4), enc_offset (4),
    response_code (1), one ignored byte, class (2), and a 4-byte
    payload_offset exactly when [has_payload_offset class]; the header's
    encrypted flag is [response_code <> 0]. *)
Theorem bc_header_fields (buf : list byte) :
  (20 <= length buf)%nat ->
  field 0 4 buf = MAGIC_HEADER ->
  bc_header buf =
    let cls := field 18 2 buf in
    let mk po := mkBcHeader (field 4 4 buf) (field 8 4 buf) (field 12 4 buf)
                   (negb (field 16 1 buf =? 0)) cls po in
    if has_payload_offset cls then
      if (24 <=? length buf)%nat
      then IOk (skipn 24 buf) (mk (Some (field 20 4 buf)))
      else IErr (Incomplete (Size 4))
    else IOk (skipn 20 buf) (mk None).
Proof.
  exact (bc_header_layout buf).
Qed.

(** C5: when the payload offset [L] does not exceed [body_len] and the
    buffer holds the body, the modern decoder takes the first [L] bytes as
    the xml segment and the next [body_len - L] bytes as the payload
    segment, and consumes exactly [body_len] bytes; [L = 0] gives no xml
    and no error, [body_len - L = 0] gives no payload, and [body_len = 0]
    gives neither, encrypted or not. *)
Theorem bc_modern_msg_segments (context : BcContext) (h : BcHeader)
  (buf : list byte)
  (HL : 0 <= xml_len_of h <= body_len h)
  (Hb : body_len h < 2 ^ 32)
  (Hbuf : body_len h <= Z.of_nat (length buf)) :
  let L := xml_len_of h in
  let xml_buf := firstn (Z.to_nat L) buf in
  let payload_buf := firstn (Z.to_nat (body_len h - L)) (skipn (Z.to_nat L) buf) in
  let rest := skipn (Z.to_nat (body_len h)) buf in
  xml_buf ++ payload_buf ++ rest = buf /\
  length xml_buf = Z.to_nat L /\
  length payload_buf = Z.to_nat (body_len h - L) /\
  (forall r m, bc_modern_msg context h buf = IOk r m ->
     r = rest /\
     xml m = (if 0 <? L then
                bcxmls_try_parse
                  (if is_encrypted h then crypt (enc_offset h) xml_buf else xml_buf)
              else None) /\
     (L = 0 -> xml m = None) /\
     (body_len h - L = 0 -> payload m = None) /\
     (forall bin, payload m = Some (PayloadBinary bin) -> bin = payload_buf)) /\
  (forall e, bc_modern_msg context h buf = IErr e -> 0 < L) /\
  (L = 0 -> exists m, bc_modern_msg context h buf = IOk rest m /\ xml m = None) /\
  (body_len h = 0 -> bc_modern_msg context h buf = IOk buf (mkModernMsg None None)).
Proof.
  rewrite (bc_modern_msg_split context h buf HL Hb Hbuf).
  set (L := xml_len_of h) in *. cbn zeta.
  split; [|split; [|split; [|split; [|split; [|split]]]]].
  - replace (Z.to_nat (body_len h)) with (Z.to_nat (body_len h - L) + Z.to_nat L)%nat
      by lia.
    rewrite <- skipn_skipn, !firstn_skipn. reflexivity.
  - apply length_firstn_le. lia.
  - apply length_firstn_le. rewrite length_skipn. lia.
  - intros r m E.
    destruct (Z.ltb_spec 0 L) as [HL0|HL0]; cbn [option_map] in E.
    + destruct (bcxmls_try_parse _) as [x|] eqn:Ex; [|discriminate].
      injection E as <- <-. cbn [xml payload].
      split; [reflexivity|]. split; [reflexivity|]. split; [lia|].
      split.
      * intros HP. destruct (Z.ltb_spec 0 (body_len h - L)); [lia|reflexivity].
      * intros bin. destruct (0 <? body_len h - L); [|discriminate].
        destruct (bcxml_try_parse _); congruence.
    + injection E as <- <-. cbn [xml payload].
      split; [reflexivity|]. split; [reflexivity|]. split; [reflexivity|].
      split.
      * intros HP. destruct (Z.ltb_spec 0 (body_len h - L)); [lia|reflexivity].
      * intros bin. destruct (0 <? body_len h - L); [|discriminate].
        destruct (bcxml_try_parse _); congruence.
  - intros e E. destruct (Z.ltb_spec 0 L); [assumption|].
    cbn [option_map] in E. discriminate.
  - intros HL0. destruct (Z.ltb_spec 0 L); [lia|]. cbn [option_map].
    eexists. split; reflexivity.
  - intros H0. assert (L = 0) by lia.
    destruct (Z.ltb_spec 0 L); [lia|].
    destruct (Z.ltb_spec 0 (body_len h - L)); [lia|].
    rewrite H0. reflexivity.
Qed.

(** C6 (as amended): a nonempty xml segment that does not parse, after
    decryption when the header says so, is a hard error and the only one;
    a nonempty payload segment never causes an error: the payload is an
    [XmlPayload] or a [BinaryPayload] holding the payload segment's bytes as
    received (not decrypted), verbatim and at their length. When the header
    is encrypted and the decrypted payload does not parse, the payload is
    that [BinaryPayload]. *)
Theorem bc_modern_msg_fallback (context : BcContext) (h : BcHeader)
  (buf : list byte)
  (HL : 0 <= xml_len_of h <= body_len h)
  (Hb : body_len h < 2 ^ 32)
  (Hbuf : body_len h <= Z.of_nat (length buf)) :
  let L := xml_len_of h in
  let xml_buf := firstn (Z.to_nat L) buf in
  let payload_buf := firstn (Z.to_nat (body_len h - L)) (skipn (Z.to_nat L) buf) in
  let rest := skipn (Z.to_nat (body_len h)) buf in
  let processed_xml :=
    if is_encrypted h then crypt (enc_offset h) xml_buf else xml_buf in
  (0 < L -> bcxmls_try_parse processed_xml = None ->
     bc_modern_msg context h buf = IErr (Nom.Error rest MapRes)) /\
  (forall e, bc_modern_msg context h buf = IErr e ->
     0 < L /\ bcxmls_try_parse processed_xml = None) /\
  (0 < body_len h - L -> forall r m, bc_modern_msg context h buf = IOk r m ->
     payload m = Some (PayloadBinary payload_buf) \/
     exists x, payload m = Some (PayloadXml x)) /\
  (is_encrypted h = true -> 0 < body_len h - L ->
   bcxml_try_parse (crypt (enc_offset h) payload_buf) = None ->
   forall r m, bc_modern_msg context h buf = IOk r m ->
     payload m = Some (PayloadBinary payload_buf) /\
     length payload_buf = Z.to_nat (body_len h - L)).
Proof.
  rewrite (bc_modern_msg_split context h buf HL Hb Hbuf).
  set (L := xml_len_of h) in *. cbn zeta.
  split; [|split; [|split]].
  - intros HL0 Hx. destruct (Z.ltb_spec 0 L); [|lia].
    rewrite Hx. reflexivity.
  - intros e E. destruct (Z.ltb_spec 0 L); cbn [option_map] in E; [|discriminate].
    split; [assumption|]. destruct (bcxmls_try_parse _); [discriminate|reflexivity].
  - intros HP r m E.
    destruct (0 <? L); cbn [option_map] in E;
      [destruct (bcxmls_try_parse _); [|discriminate]|];
      injection E as _ <-; cbn [payload];
      (destruct (Z.ltb_spec 0 (body_len h - L)); [|lia]);
      (destruct (bcxml_try_parse _); [right; eauto|left; reflexivity]).
  - intros He HP Hx r m E. rewrite He in E.
    split; [|apply length_firstn_le; rewrite length_skipn; lia].
    destruct (0 <? L); cbn [option_map] in E;
      [destruct (bcxmls_try_parse _); [|discriminate]|];
      injection E as _ <-; cbn [payload];
      (destruct (Z.ltb_spec 0 (body_len h - L)); [|lia]);
      rewrite Hx; reflexivity.
Qed.

(** C1 (code bug): on an unencrypted header, the payload's XML attempt
    parses the xml segment. Header: body_len 2, payload_offset 1, not
    encrypted; body [a; b]: the xml segment is [a], the payload segment
    [b], yet [BcXml::try_parse] is applied to [a]. *)
Theorem bc_modern_msg_plain_payload_parses_xml_segment (context : BcContext)
  (a b : byte) :
  bc_modern_msg context (mkBcHeader 0 2 0 false 0 (Some 1)) [a; b] =
    match bcxmls_try_parse [a] with
    | None => IErr (Nom.Error [] MapRes)
    | Some x =>
        IOk [] (mkModernMsg (Some x)
                  (Some (match bcxml_try_parse [a] with
                         | Some p => PayloadXml p
                         | None => PayloadBinary [b]
                         end)))
    end.
Proof.
  unfold bc_modern_msg. cbv.
  destruct (bcxmls_try_parse [a]); [|reflexivity].
  destruct (bcxml_try_parse [a]); reflexivity.
Qed.

(** C2 (code bug): a payload offset beyond the body length is not a hard
    error: [body_len - xml_len] wraps around and the decoder asks for
    [2^32 - 1] more bytes. Header: body_len 0, payload_offset 1. *)
Theorem bc_modern_msg_offset_past_body (context : BcContext) (a : byte) :
  bc_modern_msg context (mkBcHeader 0 0 0 false 0 (Some 1)) [a] =
    IErr (Incomplete (Size 4294967295)).
Proof.
  reflexivity.
Qed.

(** C7 (as amended): the legacy login decoder reads two 32-byte fields,
    username then password, as UTF-8 text without decryption and keeps
    every byte (padding and NUL included); a field that is not UTF-8 is a
    hard nom [Error]; a buffer too short for a field asks for 32 bytes
    ([Incomplete]), since nothing before it checks the body length. *)
Theorem bc_legacy_login_fields (buf : list byte) :
  let username := firstn 32 buf in
  let password := firstn 32 (skipn 32 buf) in
  ((64 <= length buf)%nat -> utf8_valid username = true ->
   utf8_valid password = true ->
     bc_legacy_login_msg buf = IOk (skipn 64 buf) (LoginMsg username password)) /\
  ((32 <= length buf)%nat -> utf8_valid username = false ->
     bc_legacy_login_msg buf = IErr (Nom.Error buf MapRes)) /\
  ((64 <= length buf)%nat -> utf8_valid username = true ->
   utf8_valid password = false ->
     bc_legacy_login_msg buf = IErr (Nom.Error (skipn 32 buf) MapRes)) /\
  ((length buf < 32)%nat ->
     bc_legacy_login_msg buf = IErr (Incomplete (Size 32))) /\
  ((32 <= length buf < 64)%nat -> utf8_valid username = true ->
     bc_legacy_login_msg buf = IErr (Incomplete (Size 32))).
Proof.
  cbn zeta. unfold bc_legacy_login_msg.
  split; [|split; [|split; [|split]]].
  - intros Hl Hu Hp. rewrite hex32_enough, Hu by lia. cbn [bind].
    rewrite hex32_enough, Hp by (rewrite length_skipn; lia). cbn [bind].
    rewrite skipn_skipn. reflexivity.
  - intros Hl Hu. rewrite hex32_enough, Hu by lia. reflexivity.
  - intros Hl Hu Hp. rewrite hex32_enough, Hu by lia. cbn [bind].
    rewrite hex32_enough, Hp by (rewrite length_skipn; lia). reflexivity.
  - intros Hl. rewrite hex32_short by lia. reflexivity.
  - intros Hl Hu. rewrite hex32_enough, Hu by lia. cbn [bind].
    rewrite hex32_short by (rewrite length_skipn; lia). reflexivity.
Qed.

(** C8: one step of the reader driver on a byte source that delivers
    data. A parse result ends the loop without reading. On
    [Incomplete(needed)] the driver reads [n] more bytes ([n] from
    [Needed::Size(n)], 1 for [Needed::Unknown]), appends what arrives and
    parses the whole buffer again; a read that returns no byte (end of
    stream) ends the loop with the I/O error [UnexpectedEof], which is not
    a parse error. A hard nom error ends the loop at once and reads
    nothing. *)
Theorem read_loop_step {Out} (fuel : nat) (parser : Parser Out)
  (input : list byte) (cs : list (list byte)) (Hcs : Forall nonempty cs) :
  (forall rest o, parser input = IOk rest o ->
     read_loop (S fuel) parser input (map Chunk cs) = (Some (Ok o), map Chunk cs)) /\
  (forall needed, parser input = IErr (Incomplete needed) ->
     let n := match needed with Unknown => 1 | Size len => len end in
     (concat cs = [] ->
        read_loop (S fuel) parser input (map Chunk cs) =
          (Some (Err (IoError UnexpectedEof)), [])) /\
     (0 < n -> concat cs <> [] ->
        exists cs', Forall nonempty cs' /\
          concat cs' = skipn (Z.to_nat n) (concat cs) /\
          read_loop (S fuel) parser input (map Chunk cs) =
            read_loop fuel parser (input ++ firstn (Z.to_nat n) (concat cs))
              (map Chunk cs'))) /\
  (forall i k, parser input = IErr (Nom.Error i k) \/
               parser input = IErr (Nom.Failure i k) ->
     exists reason,
       read_loop (S fuel) parser input (map Chunk cs) =
         (Some (Err (NomError reason)), map Chunk cs)) /\
  (forall reason, IoError UnexpectedEof <> NomError reason).
Proof.
  split; [|split; [|split]].
  - intros rest o E. cbn [read_loop]. rewrite E. reflexivity.
  - intros needed E n. split.
    + intros Hnil. rewrite (concat_nonempty_nil cs Hcs Hnil).
      cbn [read_loop map]. rewrite E. fold n.
      cbn [take_read_to_end]. destruct (n <=? 0); reflexivity.
    + intros Hn Hne.
      destruct (take_read_to_end_chunks n cs Hcs) as (cs' & Hne' & Hcat & T).
      exists cs'. split; [assumption|]. split; [assumption|].
      cbn [read_loop]. rewrite E. fold n. rewrite T.
      destruct (Nat.eqb_spec (length (firstn (Z.to_nat n) (concat cs))) 0)
        as [H0|H0]; [|reflexivity].
      exfalso. rewrite length_firstn in H0.
      destruct (concat cs) as [|b l]; [contradiction|]. cbn [length] in H0. lia.
  - intros i k [E|E]; cbn [read_loop]; rewrite E; eexists; reflexivity.
  - intros reason. discriminate.
Qed.

(** The driver reads the same bytes however the source cuts them into
    chunks. *)
Lemma read_loop_chunking {Out} (fuel : nat) (parser : Parser Out)
  (input : list byte) (cs1 cs2 : list (list byte)) :
  Forall nonempty cs1 -> Forall nonempty cs2 -> concat cs1 = concat cs2 ->
  fst (read_loop fuel parser input (map Chunk cs1)) =
  fst (read_loop fuel parser input (map Chunk cs2)).
Proof.
  revert input cs1 cs2. induction fuel as [|fuel IH];
    intros input cs1 cs2 H1 H2 Heq; [reflexivity|].
  cbn [read_loop]. destruct (parser input) as [rest o|[needed| |]]; try reflexivity.
  set (n := match needed with Unknown => 1 | Size len => len end).
  destruct (take_read_to_end_chunks n cs1 H1) as (cs1' & N1 & C1 & T1).
  destruct (take_read_to_end_chunks n cs2 H2) as (cs2' & N2 & C2 & T2).
  rewrite T1, T2, Heq.
  destruct (length (firstn (Z.to_nat n) (concat cs2)) =? 0)%nat; [reflexivity|].
  apply IH; [assumption|assumption|]. rewrite C1, C2, Heq. reflexivity.
Qed.

(** C9: decoding is deterministic: two runs from a fresh, empty buffer on
    byte sources that deliver the same bytes (in chunks of any sizes), with
    the same context, give the same message or the same error. *)
Theorem deserialize_deterministic (fuel : nat) (context : BcContext)
  (cs1 cs2 : list (list byte))
  (H1 : Forall nonempty cs1) (H2 : Forall nonempty cs2)
  (Heq : concat cs1 = concat cs2) :
  fst (deserialize fuel context (map Chunk cs1)) =
  fst (deserialize fuel context (map Chunk cs2)).
Proof.
  unfold deserialize, read_from_reader. apply read_loop_chunking; assumption.
Qed.

Lemma bc_msg_context (context1 context2 : BcContext) (buf : list byte) :
  bc_msg context1 buf = bc_msg context2 buf.
Proof. reflexivity. Qed.

(** C10: the decode does not depend on the session context: on every byte
    source, two contexts give the same result and leave the source in the
    same state. *)
Theorem deserialize_context_independent (fuel : nat)
  (context1 context2 : BcContext) (r : Reader) :
  deserialize fuel context1 r = deserialize fuel context2 r.
Proof.
  unfold deserialize, read_from_reader. apply read_loop_ext.
  intros b. apply bc_msg_context.
Qed.

(** ** Further properties of the decoder *)

(** *** Inversion of the nom primitives *)

Lemma bind_ok_inv {A B} (r : IResult A) (k : list byte -> A -> IResult B)
  (rest : list byte) (o : B) :
  bind r k = IOk rest o -> exists i a, r = IOk i a /\ k i a = IOk rest o.
Proof. destruct r as [i a|e]; cbn; [eauto|discriminate]. Qed.

Lemma le_u32_ok_inv (i r : list byte) (v : Z) :
  le_u32 i = IOk r v ->
  (4 <= length i)%nat /\ r = skipn 4 i /\ v = le_value (firstn 4 i).
Proof.
  unfold le_u32. destruct (Z.ltb_spec (Z.of_nat (length i)) 4); [discriminate|].
  intros E; injection E as <- <-. split; [lia|auto].
Qed.

Lemma le_u16_ok_inv (i r : list byte) (v : Z) :
  le_u16 i = IOk r v ->
  (2 <= length i)%nat /\ r = skipn 2 i /\ v = le_value (firstn 2 i).
Proof.
  unfold le_u16. destruct (Z.ltb_spec (Z.of_nat (length i)) 2); [discriminate|].
  intros E; injection E as <- <-. split; [lia|auto].
Qed.

Lemma le_u8_ok_inv (i r : list byte) (v : Z) :
  le_u8 i = IOk r v -> exists b, i = b :: r /\ v = u8 b.
Proof.
  destruct i as [|b i]; cbn; [discriminate|]. intros E; injection E as <- <-. eauto.
Qed.

Lemma take_ok_inv (c : Z) (i r v : list byte) :
  take c i = IOk r v ->
  c <= Z.of_nat (length i) /\ r = skipn (Z.to_nat c) i /\ v = firstn (Z.to_nat c) i.
Proof.
  unfold take. destruct (Z.ltb_spec (Z.of_nat (length i)) c); [discriminate|].
  intros E; injection E as <- <-. auto.
Qed.

Lemma hex32_ok_inv (i r s : list byte) :
  hex32 i = IOk r s ->
  (32 <= length i)%nat /\ r = skipn 32 i /\ s = firstn 32 i /\ utf8_valid s = true.
Proof.
  unfold hex32, map_res. destruct (take 32 i) as [r0 v0|] eqn:E; [|discriminate].
  apply take_ok_inv in E as (L & -> & ->). unfold from_utf8.
  destruct (utf8_valid (firstn (Z.to_nat 32) i)) eqn:V; [|discriminate].
  intros E; injection E as <- <-. split; [lia|auto].
Qed.

Lemma field_bounds (off len : nat) (buf : list byte) :
  (off + len <= length buf)%nat -> 0 <= field off len buf < 2 ^ (8 * Z.of_nat len).
Proof.
  intros H. unfold field. pose proof (le_value_bounds (firstn len (skipn off buf))) as B.
  rewrite length_firstn, length_skipn in B.
  replace (Nat.min len (length buf - off)) with len in B by lia. exact B.
Qed.

Lemma firstn_add_split (n k : nat) (l : list byte) :
  firstn (n + k) l = firstn n l ++ firstn k (skipn n l).
Proof.
  revert l. induction n as [|n IH]; intros l; [reflexivity|].
  destruct l as [|b l]; cbn; [rewrite firstn_nil; reflexivity|].
  rewrite IH. reflexivity.
Qed.

(** *** The header parser, further *)

(** A successful header parse: at least 20 bytes and the magic. *)
Lemma bc_header_ok_prefix (buf rest : list byte) (h : BcHeader) :
  bc_header buf = IOk rest h ->
  (20 <= length buf)%nat /\ field 0 4 buf = MAGIC_HEADER.
Proof.
  intros H. unfold bc_header in H.
  apply bind_ok_inv in H as (i1 & a1 & E1 & H).
  unfold verify in E1. destruct (le_u32 buf) as [r0 v0|] eqn:E0; [|discriminate].
  destruct (Z.eqb_spec v0 MAGIC_HEADER) as [Em|]; [|discriminate].
  injection E1 as <- <-.
  apply le_u32_ok_inv in E0 as (L0 & -> & ->).
  apply bind_ok_inv in H as (i2 & a2 & E2 & H). apply le_u32_ok_inv in E2 as (L2 & -> & ->).
  apply bind_ok_inv in H as (i3 & a3 & E3 & H). apply le_u32_ok_inv in E3 as (L3 & -> & ->).
  apply bind_ok_inv in H as (i4 & a4 & E4 & H). apply le_u32_ok_inv in E4 as (L4 & -> & ->).
  apply bind_ok_inv in H as (i5 & a5 & E5 & _).
  unfold tuple3 in E5.
  apply bind_ok_inv in E5 as (i6 & a6 & E6 & E5). apply le_u8_ok_inv in E6 as (b6 & E6 & ->).
  apply bind_ok_inv in E5 as (i7 & a7 & E7 & E5). apply le_u8_ok_inv in E7 as (b7 & -> & ->).
  apply bind_ok_inv in E5 as (i8 & a8 & E8 & E5). apply le_u16_ok_inv in E8 as (L8 & -> & ->).
  apply (f_equal (@length byte)) in E6. cbn [length] in E6.
  rewrite !length_skipn in E6. rewrite !length_skipn in L2, L3, L4.
  split; [lia|]. unfold field. cbn [skipn]. exact Em.
Qed.

(** What a successful header parse gives: the bytes it consumes and the
    ranges of the fields. *)
Lemma bc_header_ok_inv (buf rest : list byte) (h : BcHeader) :
  bc_header buf = IOk rest h ->
  let n := if has_payload_offset (class h) then 24%nat else 20%nat in
  (n <= length buf)%nat /\ rest = skipn n buf /\
  field 0 4 buf = MAGIC_HEADER /\
  (payload_offset h <> None <-> has_payload_offset (class h) = true) /\
  0 <= msg_id h < 2 ^ 32 /\ 0 <= body_len h < 2 ^ 32 /\
  0 <= enc_offset h < 2 ^ 32 /\ 0 <= class h < 2 ^ 16 /\
  (forall o, payload_offset h = Some o -> 0 <= o < 2 ^ 32).
Proof.
  intros H. destruct (bc_header_ok_prefix buf rest h H) as [Hl Hm].
  rewrite bc_header_layout in H by assumption. cbn zeta in H.
  pose proof (field_bounds 4 4 buf ltac:(lia)) as B1.
  pose proof (field_bounds 8 4 buf ltac:(lia)) as B2.
  pose proof (field_bounds 12 4 buf ltac:(lia)) as B3.
  pose proof (field_bounds 18 2 buf ltac:(lia)) as B4.
  change (8 * Z.of_nat 4) with 32 in B1, B2, B3.
  change (8 * Z.of_nat 2) with 16 in B4.
  destruct (has_payload_offset (field 18 2 buf)) eqn:Ec.
  - destruct (Nat.leb_spec 24 (length buf)); [|discriminate].
    injection H as <- <-. cbn [class payload_offset msg_id body_len enc_offset].
    rewrite Ec. cbv zeta.
    pose proof (field_bounds 20 4 buf ltac:(lia)) as B5.
    change (8 * Z.of_nat 4) with 32 in B5.
    repeat split; try assumption; try lia; try discriminate;
      try (intros; congruence);
      match goal with E : Some _ = Some _ |- _ => injection E as <-; lia end.
  - injection H as <- <-. cbn [class payload_offset msg_id body_len enc_offset].
    rewrite Ec. cbv zeta.
    repeat split; try assumption; try lia; try discriminate;
      try (intros; congruence).
Qed.

Lemma small_request_bind {A B} (r : IResult A) (k : list byte -> A -> IResult B) :
  small_request r = true -> (forall i a, small_request (k i a) = true) ->
  small_request (bind r k) = true.
Proof.
  intros Hr Hk. destruct r as [i a|[[|n]| |]]; cbn in *; auto.
Qed.

Lemma small_request_le_u32 (i : list byte) : small_request (le_u32 i) = true.
Proof. unfold le_u32. destruct (_ <? _); reflexivity. Qed.

Lemma small_request_tuple3_header (i : list byte) :
  small_request (tuple3 le_u8 le_u8 le_u16 i) = true.
Proof.
  unfold tuple3, le_u8.
  destruct i as [|c0 [|c1 [|c2 [|c3 i]]]]; try reflexivity.
  cbn [bind]. rewrite le_u16_cons. reflexivity.
Qed.

Lemma small_request_header_after_magic (buf : list byte) :
  (4 <= length buf)%nat -> field 0 4 buf = MAGIC_HEADER ->
  small_request (bc_header buf) = true.
Proof.
  intros Hlen Hm. unfold field in Hm. cbn [skipn] in Hm.
  bytes_prefix buf 4%nat.
  unfold bc_header, verify. rewrite le_u32_cons.
  cbn [firstn] in Hm. rewrite Hm, Z.eqb_refl. cbn [bind].
  repeat (apply small_request_bind; [apply small_request_le_u32|intros ? ?]).
  apply small_request_bind.
  - apply small_request_tuple3_header.
  - intros i' [[rc ign] cls]. apply small_request_bind.
    + unfold cond. destruct (has_payload_offset cls); [|reflexivity].
      unfold le_u32. destruct (_ <? _); reflexivity.
    + reflexivity.
Qed.

(** *** Encoding round trip *)

Lemma u8_byte_of_Z (z : Z) : u8 (byte_of_Z z) = z mod 256.
Proof.
  unfold u8, byte_of_Z. pose proof (Z.mod_pos_bound z 256 ltac:(lia)) as B.
  destruct (Byte.of_N (Z.to_N (z mod 256))) as [b|] eqn:E.
  - apply Byte.to_of_N in E. rewrite E. lia.
  - apply Byte.of_N_None_iff in E. lia.
Qed.

Lemma le_value_le_bytes (n : nat) (v : Z) :
  0 <= v < 2 ^ (8 * Z.of_nat n) -> le_value (le_bytes n v) = v.
Proof.
  revert v. induction n as [|n IH]; intros v Hv.
  - cbn in Hv |- *. lia.
  - cbn [le_bytes le_value]. rewrite u8_byte_of_Z.
    rewrite Nat2Z.inj_succ, Z.mul_succ_r, Z.pow_add_r in Hv by lia.
    change (2 ^ 8) with 256 in Hv.
    rewrite IH.
    + pose proof (Z.div_mod v 256 ltac:(lia)). lia.
    + split; [apply Z.div_pos; lia|]. apply Z.div_lt_upper_bound; lia.
Qed.

Lemma length_le_bytes (n : nat) (v : Z) : length (le_bytes n v) = n.
Proof. revert v; induction n; intros v; cbn; [reflexivity|]. rewrite IHn. reflexivity. Qed.

Lemma le_u32_le_bytes (v : Z) (r : list byte) :
  le_u32 (le_bytes 4 v ++ r) = IOk r (le_value (le_bytes 4 v)).
Proof. cbn [le_bytes app]. apply le_u32_cons. Qed.

Lemma le_u16_le_bytes (v : Z) (r : list byte) :
  le_u16 (le_bytes 2 v ++ r) = IOk r (le_value (le_bytes 2 v)).
Proof. cbn [le_bytes app]. apply le_u16_cons. Qed.

Lemma le_u8_le_bytes (v : Z) (r : list byte) :
  le_u8 (le_bytes 1 v ++ r) = IOk r (u8 (byte_of_Z v)).
Proof. reflexivity. Qed.

Lemma le_value_le_bytes_4 (v : Z) :
  0 <= v < 2 ^ 32 -> le_value (le_bytes 4 v) = v.
Proof. intros H. apply le_value_le_bytes. exact H. Qed.

Lemma le_value_le_bytes_2 (v : Z) :
  0 <= v < 2 ^ 16 -> le_value (le_bytes 2 v) = v.
Proof. intros H. apply le_value_le_bytes. exact H. Qed.

(** *** The modern decoder, further *)

Lemma u32_sub_diag (a : Z) : u32_sub a a = 0.
Proof. unfold u32_sub. rewrite Z.sub_diag. reflexivity. Qed.

(** What a successful modern decode consumes: the xml segment and the
    payload segment, whose length is the wrapped difference. *)
Lemma bc_modern_msg_ok_inv (context : BcContext) (h : BcHeader)
  (buf rest : list byte) (m : ModernMsg) :
  bc_modern_msg context h buf = IOk rest m -> 0 <= xml_len_of h ->
  let n := xml_len_of h + u32_sub (body_len h) (xml_len_of h) in
  n <= Z.of_nat (length buf) /\ rest = skipn (Z.to_nat n) buf.
Proof.
  intros E HL. unfold bc_modern_msg in E. fold (xml_len_of h) in E.
  set (L := xml_len_of h) in *. cbv zeta in E.
  set (P := u32_sub (body_len h) L) in *.
  assert (HP : 0 <= P) by (apply Z.mod_pos_bound; lia).
  apply bind_ok_inv in E as (i1 & x1 & E1 & E).
  apply take_ok_inv in E1 as (L1 & -> & ->).
  apply bind_ok_inv in E as (i2 & x2 & E2 & E).
  apply take_ok_inv in E2 as (L2 & -> & ->).
  rewrite length_skipn in L2.
  apply bind_ok_inv in E as (i3 & x3 & E3 & E).
  injection E as <- _.
  destruct (0 <? L); [destruct (bcxmls_try_parse _)|];
    try discriminate; injection E3 as <- _.
  all: cbv zeta; rewrite skipn_skipn; split; [lia|]; f_equal; lia.
Qed.

(** *** The legacy decoder, further *)

Lemma utf8_valid_ascii (l : list byte) :
  Forall (fun b => u8 b < 128) l -> utf8_valid l = true.
Proof.
  induction 1 as [|b l Hb _ IH]; [reflexivity|].
  cbn [utf8_valid]. destruct (Z.ltb_spec (u8 b) 128); [exact IH|lia].
Qed.

Lemma u8_bounds (b : byte) : 0 <= u8 b <= 255.
Proof. unfold u8. pose proof (Byte.to_N_bounded b). lia. Qed.

(** A UTF-8 sequence never holds the bytes 0xC0, 0xC1 or 0xF5 to 0xFF. *)
Lemma utf8_valid_forbidden (l : list byte) :
  utf8_valid l = true ->
  forall b, In b l -> u8 b <> 0xC0 /\ u8 b <> 0xC1 /\ u8 b < 0xF5.
Proof.
  remember (length l) as len eqn:El. revert l El.
  induction len as [len IH] using (well_founded_induction lt_wf).
  intros l El V b Hin.
  destruct l as [|x r]; [destruct Hin|].
  pose proof (u8_bounds x) as Bx.
  cbn [utf8_valid] in V.
  unfold utf8_second3, utf8_second4, utf8_cont, in_range in V.
  destruct (Z.ltb_spec (u8 x) 128).
  - destruct Hin as [<-|Hin]; [lia|].
    apply (IH (length r)) with (l := r); cbn in El |- *; auto; lia.
  - destruct ((0xC2 <=? u8 x) && (u8 x <=? 0xDF)) eqn:E2.
    + destruct r as [|c1 r']; [discriminate|].
      apply andb_prop in V as [V1 V].
      rewrite andb_true_iff, !Z.leb_le in E2, V1.
      destruct Hin as [<-|[<-|Hin]]; [lia|lia|].
      apply (IH (length r')) with (l := r'); cbn in El |- *; auto; lia.
    + destruct ((0xE0 <=? u8 x) && (u8 x <=? 0xEF)) eqn:E3.
      * destruct r as [|c1 [|c2 r']]; try discriminate.
        apply andb_prop in V as [V V3]. apply andb_prop in V as [V1 V2].
        rewrite andb_true_iff, !Z.leb_le in E3, V2.
        rewrite !orb_true_iff, !andb_true_iff, !Z.leb_le, !Z.eqb_eq in V1.
        destruct Hin as [<-|[<-|[<-|Hin]]]; [lia|lia|lia|].
        apply (IH (length r')) with (l := r'); cbn in El |- *; auto; lia.
      * destruct ((0xF0 <=? u8 x) && (u8 x <=? 0xF4)) eqn:E4; [|discriminate].
        destruct r as [|c1 [|c2 [|c3 r']]]; try discriminate.
        apply andb_prop in V as [V V4]. apply andb_prop in V as [V V3].
        apply andb_prop in V as [V1 V2].
        rewrite andb_true_iff, !Z.leb_le in E4, V2, V3.
        rewrite !orb_true_iff, !andb_true_iff, !Z.leb_le, !Z.eqb_eq in V1.
        destruct Hin as [<-|[<-|[<-|[<-|Hin]]]]; [lia|lia|lia|lia|].
        apply (IH (length r')) with (l := r'); cbn in El |- *; auto; lia.
Qed.

(** ** Extra properties *)

(** X1: the header parser on any buffer either yields a header, asks for
    1, 2 or 4 more bytes, or rejects the buffer at the magic with a hard
    [Verify] error; it never reports a [Failure] and never an unknown
    size. On fewer than 4 bytes it asks for 4. *)
Theorem bc_header_outcomes (buf : list byte) :
  ((length buf < 4)%nat -> bc_header buf = IErr (Incomplete (Size 4))) /\
  ((exists rest h, bc_header buf = IOk rest h) \/
   (exists n, bc_header buf = IErr (Incomplete (Size n)) /\
              (n = 1 \/ n = 2 \/ n = 4)) \/
   bc_header buf = IErr (Nom.Error buf Verify)).
Proof.
  split.
  - intros Hl. unfold bc_header, verify. rewrite le_u32_short by exact Hl.
    reflexivity.
  - destruct (Nat.ltb_spec (length buf) 4) as [Hl|Hl].
    { right; left. exists 4. split; [|lia].
      unfold bc_header, verify. rewrite le_u32_short by exact Hl. reflexivity. }
    destruct (Z.eqb_spec (field 0 4 buf) MAGIC_HEADER) as [Hm|Hm].
    + pose proof (small_request_header_after_magic buf Hl Hm) as S.
      pose proof (bc_header_after_magic_soft buf Hl Hm) as S'.
      destruct (bc_header buf) as [rest h|[[|n]| |]]; cbn in S, S';
        try discriminate.
      * left. eauto.
      * right; left. exists n. split; [reflexivity|].
        rewrite !orb_true_iff, !Z.eqb_eq in S. lia.
    + right; right. unfold field in Hm. cbn [skipn] in Hm.
      unfold bc_header, verify. unfold le_u32 at 1.
      destruct (Z.ltb_spec (Z.of_nat (length buf)) 4); [lia|].
      destruct (Z.eqb_spec (le_value (firstn 4 buf)) MAGIC_HEADER);
        [contradiction|reflexivity].
Qed.

(** X2: a successful header parse consumes exactly 20 bytes, or 24 when
    the class has a payload offset, starts with the magic, and yields u32
    fields, a u16 class, and a payload offset exactly when the class has
    one. *)
Theorem bc_header_consumes (buf rest : list byte) (h : BcHeader)
  (H : bc_header buf = IOk rest h) :
  let n := if has_payload_offset (class h) then 24%nat else 20%nat in
  (n <= length buf)%nat /\ rest = skipn n buf /\
  field 0 4 buf = MAGIC_HEADER /\
  (payload_offset h <> None <-> has_payload_offset (class h) = true) /\
  0 <= msg_id h < 2 ^ 32 /\ 0 <= body_len h < 2 ^ 32 /\
  0 <= enc_offset h < 2 ^ 32 /\ 0 <= class h < 2 ^ 16 /\
  (forall o, payload_offset h = Some o -> 0 <= o < 2 ^ 32).
Proof.
  exact (bc_header_ok_inv buf rest h H).
Qed.

(** X3: round trip. A header with a u32 magic, u32 fields, a u16 class
    and a payload offset exactly when the class has one, laid out on the
    wire, is read back by the header parser, whatever bytes follow. *)
Theorem bc_header_round_trip (h : BcHeader) (rest : list byte)
  (Hmagic : 0 <= MAGIC_HEADER < 2 ^ 32)
  (Hid : 0 <= msg_id h < 2 ^ 32) (Hlen : 0 <= body_len h < 2 ^ 32)
  (Henc : 0 <= enc_offset h < 2 ^ 32) (Hcls : 0 <= class h < 2 ^ 16)
  (Hpo : forall o, payload_offset h = Some o -> 0 <= o < 2 ^ 32)
  (Hhas : payload_offset h <> None <-> has_payload_offset (class h) = true) :
  bc_header (header_bytes h ++ rest) = IOk rest h.
Proof.
  destruct h as [id bl eo enc cls po]. cbn in Hid, Hlen, Henc, Hcls, Hpo, Hhas.
  unfold header_bytes. cbn [msg_id body_len enc_offset encrypted class payload_offset].
  rewrite <- !app_assoc.
  unfold bc_header, verify.
  rewrite le_u32_le_bytes, le_value_le_bytes_4, Z.eqb_refl by exact Hmagic.
  cbn [bind].
  rewrite le_u32_le_bytes, le_value_le_bytes_4 by exact Hid. cbn [bind].
  rewrite le_u32_le_bytes, le_value_le_bytes_4 by exact Hlen. cbn [bind].
  rewrite le_u32_le_bytes, le_value_le_bytes_4 by exact Henc. cbn [bind].
  unfold tuple3. rewrite le_u8_le_bytes. cbn [bind].
  rewrite le_u8_le_bytes. cbn [bind].
  rewrite le_u16_le_bytes, le_value_le_bytes_2 by exact Hcls. cbn [bind].
  unfold cond. destruct po as [o|].
  - assert (Hc : has_payload_offset cls = true) by (apply Hhas; discriminate).
    rewrite Hc, le_u32_le_bytes, le_value_le_bytes_4 by exact (Hpo o eq_refl).
    cbn [bind]. destruct enc; reflexivity.
  - assert (Hc : has_payload_offset cls = false).
    { destruct (has_payload_offset cls) eqn:E; [|reflexivity].
      exfalso. apply (proj2 Hhas); reflexivity. }
    rewrite Hc. cbn [app bind]. destruct enc; reflexivity.
Qed.

(** X4: the modern decoder on a buffer that does not hold the body asks for
    a whole segment, not for the missing bytes: the xml segment [L] when
    fewer than [L] bytes are there, else the payload segment
    [body_len - L]. *)
Theorem bc_modern_msg_incomplete (context : BcContext) (h : BcHeader)
  (buf : list byte) :
  (Z.of_nat (length buf) < xml_len_of h ->
     bc_modern_msg context h buf = IErr (Incomplete (Size (xml_len_of h)))) /\
  (0 <= xml_len_of h <= body_len h -> body_len h < 2 ^ 32 ->
   xml_len_of h <= Z.of_nat (length buf) < body_len h ->
     bc_modern_msg context h buf =
       IErr (Incomplete (Size (body_len h - xml_len_of h)))).
Proof.
  split.
  - intros Hl. unfold bc_modern_msg. fold (xml_len_of h).
    rewrite take_short by exact Hl. reflexivity.
  - intros HL Hb Hl. unfold bc_modern_msg. fold (xml_len_of h).
    rewrite take_enough by lia. cbn [bind].
    assert (Hsub : u32_sub (body_len h) (xml_len_of h) = body_len h - xml_len_of h).
    { unfold u32_sub. apply Z.mod_small. lia. }
    rewrite Hsub, take_short; [reflexivity|].
    rewrite length_skipn. lia.
Qed.

(** X5: when the class has no payload offset, a modern message never
    carries a payload: the whole body is the xml segment. *)
Theorem bc_modern_msg_no_payload_offset (context : BcContext) (h : BcHeader)
  (buf rest : list byte) (m : ModernMsg)
  (E : bc_modern_msg context h buf = IOk rest m)
  (Hn : payload_offset h = None) :
  payload m = None.
Proof.
  unfold bc_modern_msg in E. rewrite Hn, u32_sub_diag in E. cbv zeta in E.
  apply bind_ok_inv in E as (i1 & x1 & _ & E).
  apply bind_ok_inv in E as (i2 & x2 & _ & E).
  apply bind_ok_inv in E as (i3 & x3 & _ & E).
  injection E as _ <-. reflexivity.
Qed.

(** X6: a successful modern decode consumes the xml segment and the
    payload segment: [body_len] bytes when the payload offset does not
    exceed it; when it does, the wrapped payload length makes the decode
    consume at least 2^32 bytes. *)
Theorem bc_modern_msg_consumes (context : BcContext) (h : BcHeader)
  (buf rest : list byte) (m : ModernMsg)
  (E : bc_modern_msg context h buf = IOk rest m)
  (HL : 0 <= xml_len_of h) :
  let n := xml_len_of h + u32_sub (body_len h) (xml_len_of h) in
  n <= Z.of_nat (length buf) /\ rest = skipn (Z.to_nat n) buf /\
  (xml_len_of h <= body_len h < 2 ^ 32 -> n = body_len h) /\
  (0 <= body_len h < xml_len_of h -> 2 ^ 32 <= n).
Proof.
  destruct (bc_modern_msg_ok_inv context h buf rest m E HL) as [H1 H2].
  cbv zeta in *. split; [exact H1|]. split; [exact H2|]. split.
  - intros Hb. unfold u32_sub. rewrite Z.mod_small by lia. lia.
  - intros Hb. unfold u32_sub.
    pose proof (Z.div_mod (body_len h - xml_len_of h) (2 ^ 32) ltac:(lia)) as D.
    pose proof (Z.mod_pos_bound (body_len h - xml_len_of h) (2 ^ 32) ltac:(lia)) as B.
    change (2 ^ 32) with 4294967296 in *. lia.
Qed.

(** X8: a legacy login message whose 64 body bytes are ASCII decodes to
    its two 32-byte fields and consumes exactly 64 bytes, whatever the
    header's body_len. *)
Theorem bc_body_legacy_login_ascii (context : BcContext) (h : BcHeader)
  (buf : list byte)
  (Hleg : is_modern h = false) (Hid : msg_id h = MSG_ID_LOGIN)
  (Hl : (64 <= length buf)%nat)
  (Hascii : Forall (fun b => u8 b < 128) (firstn 64 buf)) :
  bc_body context h buf =
    IOk (skipn 64 buf)
      (LegacyMsgBody (LoginMsg (firstn 32 buf) (firstn 32 (skipn 32 buf)))).
Proof.
  rewrite (firstn_add_split 32 32) in Hascii.
  apply Forall_app in Hascii as [A1 A2].
  unfold bc_body. rewrite Hleg, Hid, Z.eqb_refl.
  unfold bc_legacy_login_msg.
  rewrite hex32_enough, (utf8_valid_ascii _ A1) by lia. cbn [bind].
  rewrite hex32_enough, (utf8_valid_ascii _ A2) by (rewrite length_skipn; lia).
  cbn [bind]. rewrite skipn_skipn. reflexivity.
Qed.

(** X9: a 32-byte field of the legacy decoder that holds one of the bytes
    0xC0, 0xC1 or 0xF5 to 0xFF (never part of UTF-8) is rejected with a
    hard error. *)
Theorem hex32_rejects_forbidden_byte (buf : list byte) (b : byte)
  (Hl : (32 <= length buf)%nat) (Hin : In b (firstn 32 buf))
  (Hb : u8 b = 0xC0 \/ u8 b = 0xC1 \/ 0xF5 <= u8 b) :
  hex32 buf = IErr (Nom.Error buf MapRes).
Proof.
  rewrite hex32_enough by exact Hl.
  destruct (utf8_valid (firstn 32 buf)) eqn:V; [|reflexivity].
  exfalso. pose proof (utf8_valid_forbidden _ V b Hin). lia.
Qed.

(** X10: what a whole message consumes: its header (20 or 24 bytes),
    then [body_len] bytes for a modern message whose payload offset does
    not exceed [body_len], 64 bytes for a legacy login message and none
    for another legacy message, whatever [body_len] says. *)
Theorem bc_msg_consumes (context : BcContext) (buf r rest : list byte)
  (h : BcHeader) (m : Bc)
  (Hh : bc_header buf = IOk r h) (E : bc_msg context buf = IOk rest m) :
  let n := if has_payload_offset (class h) then 24%nat else 20%nat in
  (is_modern h = true -> xml_len_of h <= body_len h ->
     rest = skipn (n + Z.to_nat (body_len h)) buf) /\
  (is_modern h = false -> msg_id h = MSG_ID_LOGIN -> rest = skipn (n + 64) buf) /\
  (is_modern h = false -> msg_id h <> MSG_ID_LOGIN -> rest = skipn n buf).
Proof.
  unfold bc_msg in E. rewrite Hh in E. cbn [bind] in E.
  apply bind_ok_inv in E as (i & b & Eb & E). injection E as <- _.
  destruct (bc_header_ok_inv buf r h Hh)
    as (Hn & -> & _ & _ & _ & Hbl & _ & _ & Hpo).
  cbv zeta in *. set (n := if has_payload_offset (class h) then 24%nat else 20%nat) in *.
  unfold bc_body in Eb. split; [|split].
  - intros Hmod HL. rewrite Hmod in Eb.
    apply bind_ok_inv in Eb as (i2 & mm & Em & Eb). injection Eb as <- _.
    assert (HL0 : 0 <= xml_len_of h).
    { unfold xml_len_of. destruct (payload_offset h) as [o|] eqn:Eo;
        [apply (Hpo o eq_refl)|lia]. }
    destruct (bc_modern_msg_ok_inv context h _ _ _ Em HL0) as [_ ->].
    unfold u32_sub. rewrite Z.mod_small by lia.
    rewrite skipn_skipn. f_equal. lia.
  - intros Hmod Hid. rewrite Hmod, Hid, Z.eqb_refl in Eb.
    apply bind_ok_inv in Eb as (i2 & lm & El & Eb). injection Eb as <- _.
    unfold bc_legacy_login_msg in El.
    apply bind_ok_inv in El as (i3 & u & E3 & El).
    apply hex32_ok_inv in E3 as (_ & -> & _).
    apply bind_ok_inv in El as (i4 & p & E4 & El). injection El as <- _.
    apply hex32_ok_inv in E4 as (_ & -> & _).
    rewrite !skipn_skipn. f_equal. lia.
  - intros Hmod Hid. rewrite Hmod in Eb.
    destruct (Z.eqb_spec (msg_id h) MSG_ID_LOGIN); [contradiction|].
    cbn [bind] in Eb. injection Eb as <- _. reflexivity.
Qed.

(** *** Definite parse results *)

Lemma definite_bind {A B} (r : IResult A) (k : list byte -> A -> IResult B) :
  definite r = true -> (forall i a, definite (k i a) = true) ->
  definite (bind r k) = true.
Proof. intros Hr Hk. destruct r as [i a|e]; cbn in *; auto. Qed.

Lemma definite_le_u32 (i : list byte) : definite (le_u32 i) = true.
Proof. unfold le_u32. destruct (_ <? _); reflexivity. Qed.

Lemma definite_le_u16 (i : list byte) : definite (le_u16 i) = true.
Proof. unfold le_u16. destruct (_ <? _); reflexivity. Qed.

Lemma definite_le_u8 (i : list byte) : definite (le_u8 i) = true.
Proof. destruct i; reflexivity. Qed.

Lemma definite_take (c : Z) (i : list byte) : definite (take c i) = true.
Proof.
  unfold take. destruct (Z.ltb_spec (Z.of_nat (length i)) c); [|reflexivity].
  cbn. apply Z.ltb_lt. lia.
Qed.

Lemma definite_bc_header (buf : list byte) : definite (bc_header buf) = true.
Proof.
  unfold bc_header. apply definite_bind.
  { unfold verify. pose proof (definite_le_u32 buf) as D.
    destruct (le_u32 buf) as [r o|e]; [|exact D].
    destruct (o =? MAGIC_HEADER); reflexivity. }
  intros i _. apply definite_bind; [apply definite_le_u32|intros i2 msg_id0].
  apply definite_bind; [apply definite_le_u32|intros i3 body_len0].
  apply definite_bind; [apply definite_le_u32|intros i4 enc_offset0].
  apply definite_bind.
  { unfold tuple3. apply definite_bind; [apply definite_le_u8|intros ? ?].
    apply definite_bind; [apply definite_le_u8|intros ? ?].
    apply definite_bind; [apply definite_le_u16|intros ? ?]. reflexivity. }
  intros i5 [[rc ign] cls]. apply definite_bind; [|reflexivity].
  unfold cond. destruct (has_payload_offset cls); [|reflexivity].
  pose proof (definite_le_u32 i5) as D. destruct (le_u32 i5); [reflexivity|exact D].
Qed.

Lemma definite_hex32 (buf : list byte) : definite (hex32 buf) = true.
Proof.
  unfold hex32, map_res. pose proof (definite_take 32 buf) as D.
  destruct (take 32 buf) as [r o|e]; [|exact D].
  destruct (from_utf8 o); reflexivity.
Qed.

Lemma definite_bc_body (context : BcContext) (h : BcHeader) (buf : list byte) :
  definite (bc_body context h buf) = true.
Proof.
  unfold bc_body. destruct (is_modern h).
  - apply definite_bind; [|reflexivity].
    unfold bc_modern_msg. cbv zeta.
    apply definite_bind; [apply definite_take|intros i1 x1].
    apply definite_bind; [apply definite_take|intros i2 x2].
    apply definite_bind; [|reflexivity].
    destruct (0 <? _); [destruct (bcxmls_try_parse _)|]; reflexivity.
  - apply definite_bind; [|reflexivity].
    destruct (msg_id h =? MSG_ID_LOGIN); [|reflexivity].
    unfold bc_legacy_login_msg.
    apply definite_bind; [apply definite_hex32|intros i1 x1].
    apply definite_bind; [apply definite_hex32|reflexivity].
Qed.

Lemma definite_bc_msg (context : BcContext) (buf : list byte) :
  definite (bc_msg context buf) = true.
Proof.
  unfold bc_msg. apply definite_bind; [apply definite_bc_header|intros i h].
  apply definite_bind; [apply definite_bc_body|reflexivity].
Qed.

(** *** The driver, further *)

(** The parse errors the driver reports: a hard error or a failure of the
    parser, the first under [Nom Error], the second under [Nom Failure]. *)
Lemma read_loop_nom_error_inv {Out} (fuel : nat) (parser : Parser Out)
  (input : list byte) (r r' : Reader) (reason : string) :
  read_loop fuel parser input r = (Some (Err (NomError reason)), r') ->
  exists buf i k, (parser buf = IErr (Nom.Error i k) /\ reason = "Nom Error"%string) \/
                  (parser buf = IErr (Nom.Failure i k) /\ reason = "Nom Failure"%string).
Proof.
  revert input r. induction fuel as [|fuel IH]; intros input r E; cbn in E;
    [discriminate|].
  destruct (parser input) as [rest o|[needed|i k|i k]] eqn:Ep; [discriminate| | |].
  - destruct (take_read_to_end _ r) as [[got [k|]] r'']; [discriminate|].
    destruct (length got =? 0)%nat; [discriminate|]. eapply IH; eauto.
  - cbn [error_of_nom] in E. injection E as <- _. exists input, i, k. left; auto.
  - cbn [error_of_nom] in E. injection E as <- _. exists input, i, k. right; auto.
Qed.

Lemma read_loop_ok_prefix_aux {Out} (fuel : nat) (parser : Parser Out)
  (input : list byte) (cs : list (list byte)) (o : Out) (r' : Reader) :
  Forall nonempty cs ->
  read_loop fuel parser input (map Chunk cs) = (Some (Ok o), r') ->
  exists k rest cs', parser (input ++ firstn k (concat cs)) = IOk rest o /\
    Forall nonempty cs' /\ r' = map Chunk cs' /\ concat cs' = skipn k (concat cs).
Proof.
  revert input cs. induction fuel as [|fuel IH]; intros input cs Hcs E; cbn in E;
    [discriminate|].
  destruct (parser input) as [rest o'|[needed| |]] eqn:Ep; try discriminate.
  - injection E as <- <-. exists 0%nat, rest, cs.
    rewrite app_nil_r. auto.
  - set (n := match needed with Unknown => 1 | Size len => len end) in E.
    destruct (take_read_to_end_chunks n cs Hcs) as (cs1 & N1 & C1 & T1).
    rewrite T1 in E.
    destruct (length (firstn (Z.to_nat n) (concat cs)) =? 0)%nat; [discriminate|].
    destruct (IH _ cs1 N1 E) as (k & rest & cs' & Ep' & N' & -> & C').
    exists (Z.to_nat n + k)%nat, rest, cs'.
    rewrite firstn_add_split, app_assoc, <- C1. split; [exact Ep'|].
    split; [exact N'|]. split; [reflexivity|].
    rewrite C', C1, skipn_skipn. f_equal. lia.
Qed.

Lemma read_loop_terminates_aux {Out} (fuel : nat) (parser : Parser Out)
  (input : list byte) (cs : list (list byte)) :
  Forall nonempty cs -> (length (concat cs) < fuel)%nat ->
  fst (read_loop fuel parser input (map Chunk cs)) <> None.
Proof.
  revert input cs. induction fuel as [|fuel IH]; intros input cs Hcs Hl;
    [lia|].
  cbn [read_loop].
  destruct (parser input) as [rest o|[needed| |]]; try discriminate.
  set (n := match needed with Unknown => 1 | Size len => len end).
  destruct (take_read_to_end_chunks n cs Hcs) as (cs1 & N1 & C1 & T1).
  rewrite T1.
  destruct (Nat.eqb_spec (length (firstn (Z.to_nat n) (concat cs))) 0) as [H0|H0];
    [discriminate|].
  apply IH; [exact N1|]. rewrite C1, length_skipn.
  rewrite length_firstn in H0. lia.
Qed.

Lemma drop_interrupted_idem (r : Reader) :
  drop_interrupted (drop_interrupted r) = drop_interrupted r.
Proof.
  induction r as [|e r IH]; [reflexivity|].
  unfold drop_interrupted in *.
  destruct e as [bs|[| |]]; cbn; rewrite ?IH; reflexivity.
Qed.

Lemma drop_interrupted_chunk (bs : list byte) (r : Reader) :
  drop_interrupted (Chunk bs :: r) = Chunk bs :: drop_interrupted r.
Proof. reflexivity. Qed.

Lemma drop_interrupted_interrupted (r : Reader) :
  drop_interrupted (IoFail Interrupted :: r) = drop_interrupted r.
Proof. reflexivity. Qed.

Lemma drop_interrupted_fail (k : IoErrorKind) (r : Reader) :
  k <> Interrupted ->
  drop_interrupted (IoFail k :: r) = IoFail k :: drop_interrupted r.
Proof. intros Hk. destruct k; [reflexivity|contradiction|reflexivity]. Qed.

Lemma take_read_to_end_nonpos (n : Z) (r : Reader) :
  (n <=? 0) = true -> take_read_to_end n r = ([], None, r).
Proof. intros Hn. destruct r; cbn; rewrite Hn; reflexivity. Qed.

(** [take(n).read_to_end] gets the same bytes and the same error whether
    or not the source answers [Interrupted] in between, and leaves the
    same source up to [Interrupted] answers. *)
Lemma take_read_to_end_drop (n : Z) (r : Reader) :
  fst (take_read_to_end n r) = fst (take_read_to_end n (drop_interrupted r)) /\
  drop_interrupted (snd (take_read_to_end n r)) =
    drop_interrupted (snd (take_read_to_end n (drop_interrupted r))).
Proof.
  revert n. induction r as [|e r IH]; intros n.
  - cbn. destruct (n <=? 0); auto.
  - destruct e as [bs|k].
    + rewrite drop_interrupted_chunk. cbn [take_read_to_end].
      destruct (n <=? 0).
      { cbn [fst snd]. rewrite !drop_interrupted_chunk, drop_interrupted_idem. auto. }
      destruct bs as [|x bs'].
      { cbn [fst snd]. rewrite drop_interrupted_idem. auto. }
      destruct (Z.of_nat (length (x :: bs')) <=? n).
      * destruct (IH (n - Z.of_nat (length (x :: bs')))) as [F S].
        destruct (take_read_to_end _ r) as [[g1 e1] r1].
        destruct (take_read_to_end _ (drop_interrupted r)) as [[g2 e2] r2].
        cbn [fst snd] in F, S |- *. injection F as <- <-. auto.
      * cbn [fst snd]. rewrite !drop_interrupted_chunk, drop_interrupted_idem. auto.
    + assert (Hk : k = Interrupted \/ k <> Interrupted)
        by (destruct k; [right; discriminate|left; reflexivity|right; discriminate]).
      destruct Hk as [->|Hk].
      * rewrite drop_interrupted_interrupted. cbn [take_read_to_end].
        destruct (n <=? 0) eqn:En.
        { rewrite (take_read_to_end_nonpos n (drop_interrupted r) En).
          cbn [fst snd]. rewrite drop_interrupted_interrupted, drop_interrupted_idem.
          auto. }
        apply IH.
      * rewrite (drop_interrupted_fail k r Hk). cbn [take_read_to_end].
        destruct (n <=? 0).
        { cbn [fst snd].
          rewrite (drop_interrupted_fail k r Hk),
            (drop_interrupted_fail k (drop_interrupted r) Hk), drop_interrupted_idem.
          auto. }
        destruct k; [| contradiction |]; cbn [fst snd];
          rewrite drop_interrupted_idem; auto.
Qed.

Lemma read_loop_drop_aux {Out} (fuel : nat) (parser : Parser Out)
  (input : list byte) (r : Reader) :
  fst (read_loop fuel parser input r) =
    fst (read_loop fuel parser input (drop_interrupted r)) /\
  drop_interrupted (snd (read_loop fuel parser input r)) =
    drop_interrupted (snd (read_loop fuel parser input (drop_interrupted r))).
Proof.
  revert input r. induction fuel as [|fuel IH]; intros input r.
  - cbn. rewrite drop_interrupted_idem. auto.
  - cbn [read_loop].
    destruct (parser input) as [rest o|[needed| |]];
      try (cbn [fst snd]; rewrite drop_interrupted_idem; auto; fail).
    set (n := match needed with Unknown => 1 | Size len => len end).
    destruct (take_read_to_end_drop n r) as [F S].
    destruct (take_read_to_end n r) as [[g1 e1] r1].
    destruct (take_read_to_end n (drop_interrupted r)) as [[g2 e2] r2].
    cbn [fst snd] in F, S. injection F as <- <-.
    destruct e1 as [k|]; [cbn [fst snd]; auto|].
    destruct (length g1 =? 0)%nat; [cbn [fst snd]; auto|].
    destruct (IH (input ++ g1) r1) as [F1 S1].
    destruct (IH (input ++ g1) r2) as [F2 S2].
    rewrite F1, F2, S1, S2, S. auto.
Qed.

Lemma take_read_to_end_fail (n : Z) (cs : list (list byte)) (k : IoErrorKind)
  (r : Reader) :
  Forall nonempty cs -> Z.of_nat (length (concat cs)) < n -> k <> Interrupted ->
  take_read_to_end n (map Chunk cs ++ IoFail k :: r) = (concat cs, Some k, r).
Proof.
  revert n. induction cs as [|c cs IH]; intros n Hcs Hl Hk.
  - cbn in Hl |- *. destruct (Z.leb_spec n 0); [lia|].
    destruct k; [reflexivity|contradiction|reflexivity].
  - inversion Hcs as [|? ? Hc Hcs']; subst.
    destruct c as [|x c0]; [contradiction|].
    cbn [map app concat take_read_to_end]. cbn [concat] in Hl.
    remember (x :: c0) as c eqn:Ec.
    rewrite length_app in Hl.
    destruct (Z.leb_spec n 0); [lia|].
    destruct (Z.leb_spec (Z.of_nat (length c)) n); [|lia].
    rewrite IH by (assumption || lia). reflexivity.
Qed.

(** X11: the message parser never reports a nom [Failure] and never an
    unknown size: when it asks for more bytes it asks for a known,
    positive number of them. *)
Theorem bc_msg_definite (context : BcContext) (buf : list byte) :
  (forall i k, bc_msg context buf <> IErr (Nom.Failure i k)) /\
  bc_msg context buf <> IErr (Incomplete Unknown) /\
  (forall n, bc_msg context buf = IErr (Incomplete (Size n)) -> 0 < n).
Proof.
  pose proof (definite_bc_msg context buf) as D.
  split; [|split].
  - intros i k E. rewrite E in D. discriminate.
  - intros E. rewrite E in D. discriminate.
  - intros n E. rewrite E in D. apply Z.ltb_lt. exact D.
Qed.

(** X12: the parse errors the driver reports are named "Nom Error" (a
    hard error of the parser) or "Nom Failure"; the third message of the
    conversion, "Unknown Nom error", never reaches the caller, since the
    driver handles [Incomplete] itself. *)
Theorem read_from_reader_nom_reasons {Out} (fuel : nat) (parser : Parser Out)
  (r r' : Reader) (reason : string)
  (E : read_from_reader fuel parser r = (Some (Err (NomError reason)), r')) :
  reason = "Nom Error"%string \/ reason = "Nom Failure"%string.
Proof.
  destruct (read_loop_nom_error_inv fuel parser [] r r' reason E)
    as (buf & i & k & [[_ ->]|[_ ->]]); auto.
Qed.

(** X13: every parse error [deserialize] reports is "Nom Error". *)
Theorem deserialize_nom_error (fuel : nat) (context : BcContext) (r r' : Reader)
  (reason : string)
  (E : deserialize fuel context r = (Some (Err (NomError reason)), r')) :
  reason = "Nom Error"%string.
Proof.
  destruct (read_loop_nom_error_inv fuel (bc_msg context) [] r r' reason E)
    as (buf & i & k & [[_ ->]|[F _]]); [reflexivity|].
  pose proof (definite_bc_msg context buf) as D. rewrite F in D. discriminate.
Qed.

(** X14: the driver's result is the parser's output on a prefix of the
    stream, and the source is left holding exactly the bytes after that
    prefix. *)
Theorem read_from_reader_ok_prefix {Out} (fuel : nat) (parser : Parser Out)
  (cs : list (list byte)) (o : Out) (r' : Reader)
  (Hcs : Forall nonempty cs)
  (E : read_from_reader fuel parser (map Chunk cs) = (Some (Ok o), r')) :
  exists k rest cs', parser (firstn k (concat cs)) = IOk rest o /\
    r' = map Chunk cs' /\ concat cs' = skipn k (concat cs).
Proof.
  destruct (read_loop_ok_prefix_aux fuel parser [] cs o r' Hcs E)
    as (k & rest & cs' & Ep & _ & Er & Ec).
  exists k, rest, cs'. auto.
Qed.

(** X15: on a source that only delivers data, the driver ends (with a
    result or an error) within one parse attempt more than there are
    bytes in the stream: every attempt that does not end the loop reads at
    least one byte. *)
Theorem read_from_reader_terminates {Out} (fuel : nat) (parser : Parser Out)
  (cs : list (list byte))
  (Hcs : Forall nonempty cs) (Hfuel : (length (concat cs) < fuel)%nat) :
  fst (read_from_reader fuel parser (map Chunk cs)) <> None.
Proof.
  exact (read_loop_terminates_aux fuel parser [] cs Hcs Hfuel).
Qed.

(** X16: [Interrupted] answers of the source are invisible: removing them
    changes neither the driver's result nor, up to such answers, what it
    leaves in the source. *)
Theorem read_from_reader_interrupted {Out} (fuel : nat) (parser : Parser Out)
  (r : Reader) :
  fst (read_from_reader fuel parser r) =
    fst (read_from_reader fuel parser (drop_interrupted r)) /\
  drop_interrupted (snd (read_from_reader fuel parser r)) =
    drop_interrupted (snd (read_from_reader fuel parser (drop_interrupted r))).
Proof.
  exact (read_loop_drop_aux fuel parser [] r).
Qed.

(** X17: an I/O error other than [Interrupted] while the driver tops up
    the buffer ends the decode with that error; the bytes read in the same
    call are dropped and the source is left after the error. *)
Theorem read_loop_io_error {Out} (fuel : nat) (parser : Parser Out)
  (input : list byte) (n : Z) (cs : list (list byte)) (k : IoErrorKind)
  (r : Reader)
  (Hp : parser input = IErr (Incomplete (Size n)))
  (Hcs : Forall nonempty cs) (Hl : Z.of_nat (length (concat cs)) < n)
  (Hk : k <> Interrupted) :
  read_loop (S fuel) parser input (map Chunk cs ++ IoFail k :: r) =
    (Some (Err (IoError k)), r).
Proof.
  cbn [read_loop]. rewrite Hp, take_read_to_end_fail by assumption.
  reflexivity.
Qed.

(** *** Streaming: appended bytes and truncation *)

Lemma firstn_app_le (n : nat) (l y : list byte) :
  (n <= length l)%nat -> firstn n (l ++ y) = firstn n l.
Proof.
  intros H. rewrite firstn_app. replace (n - length l)%nat with 0%nat by lia.
  rewrite firstn_O, app_nil_r. reflexivity.
Qed.

Lemma skipn_app_le (n : nat) (l y : list byte) :
  (n <= length l)%nat -> skipn n (l ++ y) = skipn n l ++ y.
Proof.
  intros H. rewrite skipn_app. replace (n - length l)%nat with 0%nat by lia.
  reflexivity.
Qed.

Lemma field_firstn_app (off len n : nat) (buf y : list byte) :
  (off + len <= n)%nat -> (n <= length buf)%nat ->
  field off len (firstn n buf ++ y) = field off len buf.
Proof.
  intros H1 H2. unfold field.
  rewrite skipn_app_le by (rewrite length_firstn; lia).
  rewrite firstn_app_le by (rewrite length_skipn, length_firstn; lia).
  rewrite skipn_firstn_comm, firstn_firstn.
  f_equal. f_equal. lia.
Qed.

(** The header parse depends on the header's own bytes only. *)
Lemma bc_header_ok_app (buf rest : list byte) (h : BcHeader) (y : list byte) :
  bc_header buf = IOk rest h ->
  bc_header (firstn (if has_payload_offset (class h) then 24 else 20) buf ++ y) =
    IOk y h.
Proof.
  intros H.
  destruct (bc_header_ok_inv buf rest h H) as (Hn & _ & Hmag & _).
  destruct (bc_header_ok_prefix buf rest h H) as [Hl _].
  rewrite bc_header_layout in H by assumption. cbn zeta in H.
  destruct (has_payload_offset (field 18 2 buf)) eqn:Ec.
  - destruct (Nat.leb_spec 24 (length buf)); [|discriminate].
    injection H as _ <-. cbn [class]. rewrite Ec.
    assert (Hl' : (24 <= length (firstn 24 buf ++ y))%nat)
      by (rewrite length_app, length_firstn; lia).
    rewrite bc_header_layout by (lia || (rewrite field_firstn_app by lia; exact Hmag)).
    cbn zeta. rewrite !field_firstn_app by lia. rewrite Ec.
    destruct (Nat.leb_spec 24 (length (firstn 24 buf ++ y))); [|lia].
    rewrite skipn_app, length_firstn, skipn_all2 by (rewrite length_firstn; lia).
    replace (24 - Nat.min 24 (length buf))%nat with 0%nat by lia. reflexivity.
  - injection H as _ <-. cbn [class]. rewrite Ec.
    assert (Hl' : (20 <= length (firstn 20 buf ++ y))%nat)
      by (rewrite length_app, length_firstn; lia).
    rewrite bc_header_layout by (lia || (rewrite field_firstn_app by lia; exact Hmag)).
    cbn zeta. rewrite !field_firstn_app by lia. rewrite Ec.
    rewrite skipn_app, length_firstn, skipn_all2 by (rewrite length_firstn; lia).
    replace (20 - Nat.min 20 (length buf))%nat with 0%nat by lia. reflexivity.
Qed.

Lemma app_stable_bind {A B} (p : Parser A) (k : A -> Parser B) :
  app_stable p -> (forall a, app_stable (k a)) ->
  app_stable (fun buf => bind (p buf) (fun i a => k a i)).
Proof.
  intros Hp Hk buf rest o y E. apply bind_ok_inv in E as (i & a & E1 & E2).
  rewrite (Hp _ _ _ y E1). cbn [bind]. apply Hk. exact E2.
Qed.

Lemma app_stable_ret {A} (x : A) : app_stable (fun buf => IOk buf x).
Proof. intros buf rest o y E. injection E as <- <-. reflexivity. Qed.

Lemma app_stable_le_u32 : app_stable le_u32.
Proof.
  intros buf rest o y E. apply le_u32_ok_inv in E as (L & -> & ->).
  unfold le_u32. rewrite length_app.
  destruct (Z.ltb_spec (Z.of_nat (length buf + length y)) 4); [lia|].
  rewrite firstn_app_le, skipn_app_le by lia. reflexivity.
Qed.

Lemma app_stable_le_u16 : app_stable le_u16.
Proof.
  intros buf rest o y E. apply le_u16_ok_inv in E as (L & -> & ->).
  unfold le_u16. rewrite length_app.
  destruct (Z.ltb_spec (Z.of_nat (length buf + length y)) 2); [lia|].
  rewrite firstn_app_le, skipn_app_le by lia. reflexivity.
Qed.

Lemma app_stable_le_u8 : app_stable le_u8.
Proof.
  intros buf rest o y E. apply le_u8_ok_inv in E as (b & -> & ->). reflexivity.
Qed.

Lemma app_stable_take (c : Z) : app_stable (take c).
Proof.
  intros buf rest o y E. apply take_ok_inv in E as (L & -> & ->).
  unfold take. rewrite length_app.
  destruct (Z.ltb_spec (Z.of_nat (length buf + length y)) c); [lia|].
  rewrite firstn_app_le, skipn_app_le by lia. reflexivity.
Qed.

Lemma app_stable_bc_header : app_stable bc_header.
Proof.
  unfold bc_header. apply app_stable_bind.
  { intros buf rest o y E. unfold verify in *.
    destruct (le_u32 buf) as [r0 v0|] eqn:E0; [|discriminate].
    rewrite (app_stable_le_u32 _ _ _ y E0).
    destruct (v0 =? MAGIC_HEADER); [|discriminate].
    injection E as <- <-. reflexivity. }
  intros magic. apply app_stable_bind; [exact app_stable_le_u32|intros msg_id0].
  apply app_stable_bind; [exact app_stable_le_u32|intros body_len0].
  apply app_stable_bind; [exact app_stable_le_u32|intros enc_offset0].
  apply app_stable_bind.
  { unfold tuple3. apply app_stable_bind; [exact app_stable_le_u8|intros a].
    apply app_stable_bind; [exact app_stable_le_u8|intros b].
    apply app_stable_bind; [exact app_stable_le_u16|intros c].
    apply app_stable_ret. }
  intros [[rc ign] cls]. apply app_stable_bind; [|intros po; apply app_stable_ret].
  intros buf rest o y E. unfold cond in *.
  destruct (has_payload_offset cls); [|injection E as <- <-; reflexivity].
  destruct (le_u32 buf) as [r0 v0|] eqn:E0; [|discriminate].
  injection E as <- <-. rewrite (app_stable_le_u32 _ _ _ y E0). reflexivity.
Qed.

Lemma app_stable_hex32 : app_stable hex32.
Proof.
  intros buf rest o y E. unfold hex32, map_res in *.
  destruct (take 32 buf) as [r0 v0|] eqn:E0; [|discriminate].
  rewrite (app_stable_take 32 _ _ _ y E0).
  destruct (from_utf8 v0); [|discriminate]. injection E as <- <-. reflexivity.
Qed.

Lemma app_stable_bc_body (context : BcContext) (h : BcHeader) :
  app_stable (bc_body context h).
Proof.
  unfold bc_body. destruct (is_modern h).
  - apply app_stable_bind; [|intros mm; apply app_stable_ret].
    unfold bc_modern_msg. cbv zeta.
    apply app_stable_bind; [apply app_stable_take|intros xml_buf].
    apply app_stable_bind; [apply app_stable_take|intros payload_buf].
    apply app_stable_bind; [|intros x; apply app_stable_ret].
    intros buf rest o y E.
    destruct (0 <? _); [destruct (bcxmls_try_parse _)|];
      try discriminate; injection E as <- <-; reflexivity.
  - apply app_stable_bind; [|intros lm; apply app_stable_ret].
    destruct (msg_id h =? MSG_ID_LOGIN); [|apply app_stable_ret].
    unfold bc_legacy_login_msg.
    apply app_stable_bind; [exact app_stable_hex32|intros u].
    apply app_stable_bind; [exact app_stable_hex32|intros p].
    apply app_stable_ret.
Qed.

Lemma app_stable_bc_msg (context : BcContext) : app_stable (bc_msg context).
Proof.
  unfold bc_msg. apply app_stable_bind; [exact app_stable_bc_header|intros h].
  apply app_stable_bind; [apply app_stable_bc_body|intros b].
  apply app_stable_ret.
Qed.

(** *** Framing: the driver reads one message and no further *)

Lemma drives_cons {Out} (p : Parser Out) (s : list byte) (j n : nat)
  (st : list nat) (o : Out) :
  p (firstn j s) = IErr (Incomplete (Size (Z.of_nat n))) -> (0 < n)%nat ->
  drives p s (j + n) st o -> drives p s j (n :: st) o.
Proof. intros E Hn D. cbn [drives]. auto. Qed.

Lemma drives_nil {Out} (p : Parser Out) (s : list byte) (j : nat) (rest : list byte)
  (o : Out) :
  p (firstn j s) = IOk rest o -> drives p s j [] o.
Proof. intros E. cbn [drives]. eauto. Qed.

(** When the parser asks, at every stop, for bytes the stream has, the
    driver reads exactly those bytes and returns the parser's output. *)
Lemma read_loop_drives {Out} (fuel : nat) (p : Parser Out) (s : list byte)
  (j : nat) (steps : list nat) (o : Out) (cs : list (list byte)) :
  drives p s j steps o -> Forall nonempty cs -> concat cs = skipn j s ->
  (j + list_sum steps <= length s)%nat -> (length steps < fuel)%nat ->
  exists cs', read_loop fuel p (firstn j s) (map Chunk cs) = (Some (Ok o), map Chunk cs') /\
    Forall nonempty cs' /\ concat cs' = skipn (j + list_sum steps) s.
Proof.
  revert fuel j cs. induction steps as [|n st IH]; intros fuel j cs D Hcs Hc Hl Hf.
  - destruct fuel as [|fuel]; [cbn in Hf; lia|].
    destruct D as [rest E]. cbn [read_loop]. rewrite E. exists cs.
    split; [reflexivity|]. split; [exact Hcs|].
    cbn [list_sum fold_right]. rewrite Nat.add_0_r. exact Hc.
  - destruct fuel as [|fuel]; [cbn in Hf; lia|].
    destruct D as (E & Hn & D). cbn [read_loop]. rewrite E.
    destruct (take_read_to_end_chunks (Z.of_nat n) cs Hcs) as (cs1 & N1 & C1 & T1).
    rewrite T1. rewrite Nat2Z.id, Hc in *.
    change (list_sum (n :: st)) with (n + list_sum st)%nat in *.
    cbn [length] in Hf.
    assert (Lg : length (firstn n (skipn j s)) = n)
      by (rewrite length_firstn, length_skipn; lia).
    rewrite Lg. destruct (Nat.eqb_spec n 0) as [H0|H0]; [lia|].
    rewrite <- firstn_add_split.
    destruct (IH fuel (j + n)%nat cs1 D N1) as (cs' & E' & N' & C').
    + rewrite C1, skipn_skipn. f_equal. lia.
    + lia.
    + lia.
    + exists cs'. split; [exact E'|]. split; [exact N'|]. rewrite C'. f_equal. lia.
Qed.

Lemma bc_msg_header_err (context : BcContext) (buf : list byte) (e : Nom.Err) :
  bc_header buf = IErr e -> bc_msg context buf = IErr e.
Proof. intros E. unfold bc_msg. rewrite E. reflexivity. Qed.

(** Evaluate the message parser on an explicit prefix of a header. *)
Ltac header_step Hmag Ec :=
  cbn [Nat.add firstn app];
  apply bc_msg_header_err;
  unfold bc_header, verify, tuple3, le_u8, cond;
  try rewrite le_u32_cons; try rewrite Hmag, Z.eqb_refl; cbn [bind];
  repeat (first [rewrite le_u32_cons | rewrite le_u16_cons]; cbn [bind]);
  try rewrite Ec; reflexivity.

(** The requests of the message parser while it reads a header: 4, 4, 4,
    4, 1, 1 and 2 bytes, then 4 more when the class has a payload offset. *)
Lemma bc_msg_header_drives (context : BcContext) (msg more r : list byte)
  (h : BcHeader) (bs : list nat) (m : Bc) :
  bc_header msg = IOk r h ->
  drives (bc_msg context) (msg ++ more)
    (if has_payload_offset (class h) then 24 else 20) bs m ->
  drives (bc_msg context) (msg ++ more) 0
    ([4; 4; 4; 4; 1; 1; 2] ++ (if has_payload_offset (class h) then [4] else []) ++ bs)%nat
    m.
Proof.
  intros Hh D. destruct (bc_header_ok_prefix msg r h Hh) as [Hl Hmag].
  rewrite bc_header_layout in Hh by assumption. cbn zeta in Hh.
  destruct (has_payload_offset (field 18 2 msg)) eqn:Ec.
  - destruct (Nat.leb_spec 24 (length msg)); [|discriminate].
    injection Hh as _ <-. cbn [class] in D |- *. rewrite Ec in D |- *.
    unfold field in Hmag, Ec. bytes_prefix msg 24%nat.
    cbn [firstn skipn] in Hmag, Ec. cbn [app].
    apply drives_cons; [header_step Hmag Ec|lia|].
    apply drives_cons; [header_step Hmag Ec|lia|].
    apply drives_cons; [header_step Hmag Ec|lia|].
    apply drives_cons; [header_step Hmag Ec|lia|].
    apply drives_cons; [header_step Hmag Ec|lia|].
    apply drives_cons; [header_step Hmag Ec|lia|].
    apply drives_cons; [header_step Hmag Ec|lia|].
    apply drives_cons; [header_step Hmag Ec|lia|].
    exact D.
  - injection Hh as _ <-. cbn [class] in D |- *. rewrite Ec in D |- *.
    unfold field in Hmag, Ec. bytes_prefix msg 20%nat.
    cbn [firstn skipn] in Hmag, Ec. cbn [app].
    apply drives_cons; [header_step Hmag Ec|lia|].
    apply drives_cons; [header_step Hmag Ec|lia|].
    apply drives_cons; [header_step Hmag Ec|lia|].
    apply drives_cons; [header_step Hmag Ec|lia|].
    apply drives_cons; [header_step Hmag Ec|lia|].
    apply drives_cons; [header_step Hmag Ec|lia|].
    apply drives_cons; [header_step Hmag Ec|lia|].
    exact D.
Qed.

(** The requests of the message parser while it reads a body: the xml
    segment and the payload segment of a modern message (each when not
    empty), the two 32-byte fields of a legacy login, nothing for another
    legacy message. *)
Lemma bc_msg_body_drives (context : BcContext) (msg more r : list byte)
  (h : BcHeader) (b : BcBody) :
  bc_header msg = IOk r h -> bc_body context h r = IOk [] b ->
  (is_modern h = true -> xml_len_of h <= body_len h) ->
  exists bs,
    drives (bc_msg context) (msg ++ more)
      (if has_payload_offset (class h) then 24 else 20) bs (mkBc (to_meta h) b) /\
    ((if has_payload_offset (class h) then 24 else 20) + list_sum bs)%nat = length msg /\
    (length bs <= 2)%nat.
Proof.
  intros Hh Eb Hmod.
  destruct (bc_header_ok_inv msg r h Hh) as (Hn & Hr & _ & _ & _ & Hbl & _ & _ & Hpo).
  cbv zeta in Hn, Hr.
  set (H := if has_payload_offset (class h) then 24%nat else 20%nat) in *.
  assert (Hstep : forall y, bc_msg context (firstn H msg ++ y) =
            bind (bc_body context h y) (fun buf body => IOk buf (mkBc (to_meta h) body))).
  { intros y. unfold bc_msg.
    rewrite (bc_header_ok_app msg r h y Hh : bc_header (firstn H msg ++ y) = IOk y h).
    reflexivity. }
  assert (Hfirst : forall k, (H + k <= length msg)%nat ->
            firstn (H + k) (msg ++ more) = firstn H msg ++ firstn k r).
  { intros k Hk. rewrite firstn_app_le by exact Hk.
    rewrite firstn_add_split, Hr. reflexivity. }
  assert (Hall : firstn (length msg) (msg ++ more) = msg)
    by (rewrite firstn_app_le, firstn_all by lia; reflexivity).
  assert (Hwhole : bc_msg context msg = IOk [] (mkBc (to_meta h) b)).
  { unfold bc_msg. rewrite Hh. cbn [bind]. rewrite Eb. reflexivity. }
  assert (Hlr : length r = (length msg - H)%nat) by (rewrite Hr, length_skipn; reflexivity).
  destruct (is_modern h) eqn:Emod.
  - (* modern *)
    specialize (Hmod eq_refl).
    unfold bc_body in Eb. rewrite Emod in Eb.
    apply bind_ok_inv in Eb as (i & mm & Em & Eb). injection Eb as Ei _. subst i.
    assert (HL0 : 0 <= xml_len_of h).
    { unfold xml_len_of. destruct (payload_offset h) as [o|] eqn:Eo;
        [apply (Hpo o eq_refl)|lia]. }
    set (L := xml_len_of h) in *. set (P := body_len h - L).
    assert (Hsub : u32_sub (body_len h) L = P)
      by (unfold u32_sub, P; apply Z.mod_small; lia).
    destruct (bc_modern_msg_ok_inv context h r [] mm Em HL0) as [Hlen Hnil].
    fold L in Hlen, Hnil. rewrite Hsub in Hlen, Hnil.
    assert (Hlr' : length r = Z.to_nat (L + P)).
    { apply (f_equal (@length byte)) in Hnil. rewrite length_skipn in Hnil.
      cbn [length] in Hnil. lia. }
    assert (SL : 0 < L ->
                 bc_msg context (firstn (H + 0) (msg ++ more)) =
                   IErr (Incomplete (Size (Z.of_nat (Z.to_nat L))))).
    { intros HLp. rewrite Hfirst by lia. cbn [firstn]. rewrite app_nil_r, <- (app_nil_r (firstn H msg)).
      rewrite Hstep. unfold bc_body. rewrite Emod.
      unfold bc_modern_msg. fold (xml_len_of h). fold L. rewrite take_short by (cbn [length]; lia).
      rewrite Z2Nat.id by lia. reflexivity. }
    assert (SP : 0 < P ->
                 bc_msg context (firstn (H + Z.to_nat L) (msg ++ more)) =
                   IErr (Incomplete (Size (Z.of_nat (Z.to_nat P))))).
    { intros HPp. rewrite Hfirst by lia. rewrite Hstep. unfold bc_body. rewrite Emod.
      unfold bc_modern_msg. fold (xml_len_of h). fold L.
      rewrite take_enough by (rewrite length_firstn; lia). cbn [bind].
      rewrite Hsub, skipn_all2 by (rewrite length_firstn; lia).
      rewrite take_short by (cbn [length]; lia). rewrite Z2Nat.id by lia. reflexivity. }
    assert (SF : forall k, k = length msg ->
                 drives (bc_msg context) (msg ++ more) k [] (mkBc (to_meta h) b)).
    { intros k Hk. apply (drives_nil _ _ _ []). rewrite Hk, Hall. exact Hwhole. }
    destruct (Z.ltb_spec 0 L) as [HLp|HLz]; destruct (Z.ltb_spec 0 P) as [HPp|HPz].
    + exists [Z.to_nat L; Z.to_nat P]. split; [|split; [|cbn; lia]].
      * rewrite <- (Nat.add_0_r H) at 1.
        apply drives_cons; [exact (SL HLp)|lia|]. rewrite Nat.add_0_r.
        apply drives_cons; [exact (SP HPp)|lia|].
        apply SF. lia.
      * cbn [list_sum fold_right]. lia.
    + exists [Z.to_nat L]. split; [|split; [|cbn; lia]].
      * rewrite <- (Nat.add_0_r H) at 1.
        apply drives_cons; [exact (SL HLp)|lia|].
        apply SF. lia.
      * cbn [list_sum fold_right]. lia.
    + exists [Z.to_nat P]. split; [|split; [|cbn; lia]].
      * replace H with (H + Z.to_nat L)%nat at 1 by lia.
        apply drives_cons; [exact (SP HPp)|lia|].
        apply SF. lia.
      * cbn [list_sum fold_right]. lia.
    + exists []. split; [|split; [|cbn; lia]].
      * rewrite <- (Nat.add_0_r H) at 1. apply SF. lia.
      * cbn [list_sum fold_right]. lia.
  - unfold bc_body in Eb. rewrite Emod in Eb.
    destruct (Z.eqb_spec (msg_id h) MSG_ID_LOGIN) as [Eid|Eid].
    + (* legacy login *)
      apply bind_ok_inv in Eb as (i & lm & El & Eb). injection Eb as Ei _. subst i.
      unfold bc_legacy_login_msg in El.
      apply bind_ok_inv in El as (i1 & u & E1 & El).
      apply bind_ok_inv in El as (i2 & pw & E2 & El). injection El as Ei _. subst i2.
      apply hex32_ok_inv in E1 as (L1 & -> & -> & V1).
      apply hex32_ok_inv in E2 as (L2 & Enil & _ & _).
      rewrite length_skipn in L2.
      assert (Hr64 : length r = 64%nat).
      { apply (f_equal (@length byte)) in Enil. rewrite !length_skipn in Enil.
        cbn [length] in Enil. lia. }
      exists [32; 32]%nat. split; [|split; [cbn [list_sum fold_right]; lia|cbn; lia]].
      rewrite <- (Nat.add_0_r H) at 1.
      apply drives_cons; [|lia|].
      { rewrite Hfirst by lia. cbn [firstn]. rewrite app_nil_r, <- (app_nil_r (firstn H msg)).
        rewrite Hstep. unfold bc_body. rewrite Emod, Eid, Z.eqb_refl.
        unfold bc_legacy_login_msg. rewrite hex32_short by (cbn [length]; lia). reflexivity. }
      rewrite Nat.add_0_r. apply drives_cons; [|lia|].
      { rewrite Hfirst by lia. rewrite Hstep. unfold bc_body.
        rewrite Emod, Eid, Z.eqb_refl. unfold bc_legacy_login_msg.
        rewrite hex32_enough by (rewrite length_firstn; lia).
        rewrite firstn_firstn, Nat.min_id, V1. cbn [bind].
        rewrite skipn_all2 by (rewrite length_firstn; lia).
        rewrite hex32_short by (cbn [length]; lia). reflexivity. }
      apply (drives_nil _ _ _ []).
      replace (H + 32 + 32)%nat with (length msg) by lia.
      rewrite Hall. exact Hwhole.
    + (* another legacy message *)
      cbn [bind] in Eb. injection Eb as Ei _. subst r.
      exists []. split; [|split; [|cbn; lia]].
      * apply (drives_nil _ _ _ []).
        replace H with (length msg).
        { rewrite Hall. exact Hwhole. }
        cbn in Hlr. lia.
      * cbn in Hlr |- *. lia.
Qed.

(** X18: once [bc_header] succeeds, its result depends only on the bytes
    of the header itself (24 with a payload offset, 20 without): any bytes
    may follow them, and they are handed back untouched. *)
Theorem bc_header_prefix_only (buf rest : list byte) (h : BcHeader) (y : list byte)
  (H : bc_header buf = IOk rest h) :
  bc_header (firstn (if has_payload_offset (class h) then 24 else 20) buf ++ y) =
    IOk y h.
Proof. exact (bc_header_ok_app buf rest h y H). Qed.

(** X19: a message that parses keeps parsing to the same value when more
    bytes are appended to the buffer; the appended bytes end up behind the
    unconsumed rest. *)
Theorem bc_msg_app_stable (context : BcContext) (buf rest y : list byte) (m : Bc)
  (E : bc_msg context buf = IOk rest m) :
  bc_msg context (buf ++ y) = IOk (rest ++ y) m.
Proof. exact (app_stable_bc_msg context buf rest m y E). Qed.

(** The reader driver on a stream that starts with one complete message:
    the message, and the bytes after it left in non-empty chunks. *)
Lemma deserialize_frame (fuel : nat) (context : BcContext)
  (msg more : list byte) (m : Bc) (cs : list (list byte)) :
  Forall nonempty cs -> concat cs = msg ++ more ->
  bc_msg context msg = IOk [] m ->
  (forall r h, bc_header msg = IOk r h -> is_modern h = true ->
     xml_len_of h <= body_len h) ->
  (10 < fuel)%nat ->
  exists cs', deserialize fuel context (map Chunk cs) = (Some (Ok m), map Chunk cs') /\
    Forall nonempty cs' /\ concat cs' = more.
Proof.
  intros Hcs Hs Hm Hmod Hfuel.
  pose proof Hm as Hm'.
  unfold bc_msg in Hm'. apply bind_ok_inv in Hm' as (r & h & Hh & Eb).
  apply bind_ok_inv in Eb as (i & b & Eb & Em). injection Em as -> <-.
  destruct (bc_msg_body_drives context msg more r h b Hh Eb (Hmod r h Hh))
    as (bs & D & Hlen & Hbs).
  pose proof (bc_msg_header_drives context msg more r h bs _ Hh D) as D0.
  assert (Hsum : list_sum ([4; 4; 4; 4; 1; 1; 2] ++
            (if has_payload_offset (class h) then [4] else []) ++ bs)%nat =
            length msg).
  { rewrite <- Hlen. rewrite !list_sum_app.
    destruct (has_payload_offset (class h)); cbn; lia. }
  destruct (read_loop_drives fuel (bc_msg context) (msg ++ more) 0 _ _ cs D0 Hcs)
    as (cs' & E & N & C).
  - rewrite Hs. reflexivity.
  - rewrite Hsum, length_app. lia.
  - rewrite !length_app. destruct (has_payload_offset (class h)); cbn; lia.
  - exists cs'. split; [exact E|]. split; [exact N|]. rewrite C, Hsum. cbn [Nat.add].
    rewrite skipn_app, skipn_all, Nat.sub_diag. reflexivity.
Qed.
(** X20: framing. When the stream starts with the bytes of one complete
    message (whose modern xml length does not exceed its body length),
    however the reader splits the stream into chunks, [deserialize] returns
    that message and leaves exactly the bytes after it in the reader. *)
Theorem deserialize_one_message (fuel : nat) (context : BcContext)
  (msg more : list byte) (m : Bc) (cs : list (list byte))
  (Hcs : Forall nonempty cs) (Hs : concat cs = msg ++ more)
  (Hm : bc_msg context msg = IOk [] m)
  (Hmod : forall r h, bc_header msg = IOk r h -> is_modern h = true ->
          xml_len_of h <= body_len h)
  (Hfuel : (10 < fuel)%nat) :
  exists cs', deserialize fuel context (map Chunk cs) = (Some (Ok m), map Chunk cs') /\
    concat cs' = more.
Proof.
  destruct (deserialize_frame fuel context msg more m cs Hcs Hs Hm Hmod Hfuel)
    as (cs' & E & _ & C).
  exists cs'. split; [exact E|exact C].
Qed.

(** X7: two messages back to back. When the stream starts with two complete
    messages, however it is split into chunks, a first [deserialize]
    returns the first message, a second one on the reader it leaves returns
    the second, and the reader then holds exactly the bytes after both. *)
Theorem deserialize_two_messages (fuel : nat) (context : BcContext)
  (msg1 msg2 more : list byte) (m1 m2 : Bc) (cs : list (list byte))
  (Hcs : Forall nonempty cs) (Hs : concat cs = msg1 ++ msg2 ++ more)
  (Hm1 : bc_msg context msg1 = IOk [] m1)
  (Hm2 : bc_msg context msg2 = IOk [] m2)
  (Hmod1 : forall r h, bc_header msg1 = IOk r h -> is_modern h = true ->
           xml_len_of h <= body_len h)
  (Hmod2 : forall r h, bc_header msg2 = IOk r h -> is_modern h = true ->
           xml_len_of h <= body_len h)
  (Hfuel : (10 < fuel)%nat) :
  exists cs1 cs2,
    deserialize fuel context (map Chunk cs) = (Some (Ok m1), map Chunk cs1) /\
    deserialize fuel context (map Chunk cs1) = (Some (Ok m2), map Chunk cs2) /\
    concat cs2 = more.
Proof.
  destruct (deserialize_frame fuel context msg1 (msg2 ++ more) m1 cs Hcs Hs Hm1
              Hmod1 Hfuel) as (cs1 & E1 & N1 & C1).
  destruct (deserialize_frame fuel context msg2 more m2 cs1 N1 C1 Hm2 Hmod2 Hfuel)
    as (cs2 & E2 & _ & C2).
  exists cs1, cs2. split; [exact E1|]. split; [exact E2|exact C2].
Qed.

End Decoder.

(** ** Witnesses and counterexamples *)

(** The header parser and the message parser on a buffer whose first four
    bytes are not the magic constant: a hard error. *)
Lemma bc_header_magic_witness :
  (4 <= length [x00; x00; x00; x00])%nat /\
  field 0 4 [x00; x00; x00; x00] <> inst_MAGIC_HEADER /\
  bc_msg (MAGIC_HEADER := inst_MAGIC_HEADER) (MSG_ID_LOGIN := inst_MSG_ID_LOGIN)
    (has_payload_offset := inst_has_payload_offset) (is_modern := inst_is_modern)
    (to_meta := fun h : BcHeader => h) (bcxmls_try_parse := inst_xml_parse)
    (bcxml_try_parse := inst_xml_parse) (crypt := inst_crypt)
    tt [x00; x00; x00; x00] = IErr (Nom.Error [x00; x00; x00; x00] Verify).
Proof.
  assert (Hl : (4 <= length [x00; x00; x00; x00])%nat) by (cbn; lia).
  assert (Hm : field 0 4 [x00; x00; x00; x00] <> inst_MAGIC_HEADER)
    by (vm_compute; discriminate).
  split; [exact Hl|]. split; [exact Hm|].
  exact (proj2 (proj1 (@bc_header_magic unit BcHeader (list byte) (list byte)
    inst_MAGIC_HEADER inst_MSG_ID_LOGIN inst_has_payload_offset inst_is_modern
    (fun h => h) inst_xml_parse inst_xml_parse inst_crypt
    [x00; x00; x00; x00] Hl) Hm) tt).
Defined.

(** The header of [demo_header], field by field. *)
Lemma bc_header_fields_witness :
  (20 <= length demo_header)%nat /\
  field 0 4 demo_header = inst_MAGIC_HEADER /\
  bc_header (MAGIC_HEADER := inst_MAGIC_HEADER)
    (has_payload_offset := inst_has_payload_offset) demo_header =
    IOk [] (mkBcHeader 1 2 0x1000000 true 0x6414 (Some 1)).
Proof.
  assert (Hl : (20 <= length demo_header)%nat) by (vm_compute; lia).
  assert (Hm : field 0 4 demo_header = inst_MAGIC_HEADER) by reflexivity.
  split; [exact Hl|]. split; [exact Hm|].
  rewrite (bc_header_fields (MAGIC_HEADER := inst_MAGIC_HEADER)
             (has_payload_offset := inst_has_payload_offset) demo_header Hl Hm).
  vm_compute. reflexivity.
Defined.

(** A clear modern header with body_len 3 and payload_offset 1, on the
    body ['<'; 0x00; 0x00] followed by one byte of the next message: the
    xml segment is ['<'], the payload segment [0x00; 0x00], the byte 0x07
    is left; the decode succeeds. *)
Lemma bc_modern_msg_segments_witness :
  let h := mkBcHeader 1 3 0 false 0x6414 (Some 1) in
  let buf := ["<"%byte; x00; x00; x07] in
  (0 <= xml_len_of h <= body_len h) /\ body_len h < 2 ^ 32 /\
  body_len h <= Z.of_nat (length buf) /\
  ["<"%byte] ++ [x00; x00] ++ [x07] = buf /\
  length ["<"%byte] = Z.to_nat (xml_len_of h) /\
  length [x00; x00] = Z.to_nat (body_len h - xml_len_of h) /\
  (exists m, bc_modern_msg (bcxmls_try_parse := inst_xml_parse)
       (bcxml_try_parse := inst_xml_parse) (crypt := inst_crypt) tt h buf =
       IOk [x07] m) /\
  (forall r m,
     bc_modern_msg (bcxmls_try_parse := inst_xml_parse)
       (bcxml_try_parse := inst_xml_parse) (crypt := inst_crypt) tt h buf =
       IOk r m ->
     r = [x07] /\ xml m = inst_xml_parse ["<"%byte] /\
     (xml_len_of h = 0 -> xml m = None) /\
     (body_len h - xml_len_of h = 0 -> payload m = None) /\
     (forall bin, payload m = Some (PayloadBinary bin) -> bin = [x00; x00])).
Proof.
  cbn zeta.
  assert (H1 : 0 <= xml_len_of (mkBcHeader 1 3 0 false 0x6414 (Some 1))
                 <= body_len (mkBcHeader 1 3 0 false 0x6414 (Some 1)))
    by (cbn; lia).
  assert (H2 : body_len (mkBcHeader 1 3 0 false 0x6414 (Some 1)) < 2 ^ 32)
    by (cbn; lia).
  assert (H3 : body_len (mkBcHeader 1 3 0 false 0x6414 (Some 1))
                 <= Z.of_nat (length ["<"%byte; x00; x00; x07]))
    by (cbn; lia).
  pose proof (bc_modern_msg_segments (bcxmls_try_parse := inst_xml_parse)
       (bcxml_try_parse := inst_xml_parse) (crypt := inst_crypt)
       tt _ ["<"%byte; x00; x00; x07] H1 H2 H3) as S.
  cbv zeta in S. destruct S as (S1 & S2 & S3 & S4 & _).
  split; [exact H1|]. split; [exact H2|]. split; [exact H3|].
  split; [exact S1|]. split; [exact S2|]. split; [exact S3|].
  split; [exists (mkModernMsg (Some ["<"%byte]) (Some (PayloadXml ["<"%byte])));
          vm_compute; reflexivity|].
  exact S4.
Defined.

(** An encrypted message whose one-byte payload does not parse once
    decrypted: the payload is the byte as received. *)
Lemma bc_modern_msg_fallback_witness :
  let h := mkBcHeader 1 1 5 true 0x6414 (Some 0) in
  (0 <= xml_len_of h <= body_len h) /\ body_len h < 2 ^ 32 /\
  body_len h <= Z.of_nat (length [x41]) /\
  forall r m,
    bc_modern_msg (bcxmls_try_parse := inst_xml_parse)
      (bcxml_try_parse := inst_xml_parse) (crypt := inst_crypt) tt h [x41] =
      IOk r m ->
    payload m = Some (PayloadBinary [x41]).
Proof.
  cbn zeta.
  assert (H1 : 0 <= xml_len_of (mkBcHeader 1 1 5 true 0x6414 (Some 0))
                 <= body_len (mkBcHeader 1 1 5 true 0x6414 (Some 0)))
    by (vm_compute; split; discriminate).
  assert (H2 : body_len (mkBcHeader 1 1 5 true 0x6414 (Some 0)) < 2 ^ 32)
    by (vm_compute; reflexivity).
  assert (H3 : body_len (mkBcHeader 1 1 5 true 0x6414 (Some 0))
                 <= Z.of_nat (length [x41]))
    by (vm_compute; discriminate).
  split; [exact H1|]. split; [exact H2|]. split; [exact H3|].
  intros r m E.
  exact (proj1 (proj2 (proj2 (proj2
    (bc_modern_msg_fallback (bcxmls_try_parse := inst_xml_parse)
       (bcxml_try_parse := inst_xml_parse) (crypt := inst_crypt)
       tt _ [x41] H1 H2 H3))) eq_refl eq_refl eq_refl r m E)).
Defined.

(** C6: when the header is encrypted and the decrypted payload is not XML,
    the [BinaryPayload] holds the bytes as received, not the decrypted
    bytes the claim names. Header: body_len 1, payload_offset 0,
    enc_offset 5; body [0x41], decrypted to ['-']. *)
Lemma bc_modern_msg_binary_not_decrypted :
  let h := mkBcHeader 1 1 5 true 0x6414 (Some 0) in
  bc_modern_msg (bcxmls_try_parse := inst_xml_parse)
    (bcxml_try_parse := inst_xml_parse) (crypt := inst_crypt) tt h [x41] =
    IOk [] (mkModernMsg None (Some (PayloadBinary [x41]))) /\
  inst_xml_parse (inst_crypt 5 [x41]) = None /\
  ~ (exists r m,
       bc_modern_msg (bcxmls_try_parse := inst_xml_parse)
         (bcxml_try_parse := inst_xml_parse) (crypt := inst_crypt) tt h [x41] =
         IOk r m /\
       payload m = Some (PayloadBinary (inst_crypt 5 [x41]))).
Proof.
  cbn zeta. split; [vm_compute; reflexivity|]. split; [vm_compute; reflexivity|].
  intros (r & m & E & P). vm_compute in E. injection E as _ <-.
  vm_compute in P. discriminate.
Defined.

(** The legacy login body of the test of de.rs decodes verbatim, NUL
    padding included. *)
Lemma bc_legacy_login_fields_witness :
  (64 <= length demo_legacy_body)%nat /\
  utf8_valid (firstn 32 demo_legacy_body) = true /\
  utf8_valid (firstn 32 (skipn 32 demo_legacy_body)) = true /\
  bc_legacy_login_msg demo_legacy_body =
    IOk [] (LoginMsg (list_byte_of_string "21232F297A57A5A743894A0E4A801FC" ++ [x00])
                     (repeat x00 32)).
Proof.
  assert (H1 : (64 <= length demo_legacy_body)%nat) by (vm_compute; lia).
  assert (H2 : utf8_valid (firstn 32 demo_legacy_body) = true) by reflexivity.
  assert (H3 : utf8_valid (firstn 32 (skipn 32 demo_legacy_body)) = true)
    by reflexivity.
  split; [exact H1|]. split; [exact H2|]. split; [exact H3|].
  rewrite (proj1 (bc_legacy_login_fields demo_legacy_body) H1 H2 H3).
  vm_compute. reflexivity.
Defined.

(** C7: the legacy login decoder asks for more bytes on a short buffer,
    alone and behind a legacy login header (class 0x6514, msg_id 1,
    body_len 64) with no body yet. *)
Lemma bc_legacy_login_incomplete :
  bc_legacy_login_msg [] = IErr (Incomplete (Size 32)) /\
  bc_msg (MAGIC_HEADER := inst_MAGIC_HEADER) (MSG_ID_LOGIN := inst_MSG_ID_LOGIN)
    (has_payload_offset := inst_has_payload_offset) (is_modern := inst_is_modern)
    (to_meta := fun h : BcHeader => h) (bcxmls_try_parse := inst_xml_parse)
    (bcxml_try_parse := inst_xml_parse) (crypt := inst_crypt) tt
    [xf0; xde; xbc; x0a;  x01; x00; x00; x00;  x40; x00; x00; x00;
     x00; x00; x00; x01;  x01; x00; x14; x65] =
    IErr (Incomplete (Size 32)).
Proof.
  split; vm_compute; reflexivity.
Defined.

(** A parser that rejects its first byte stops the driver without a read. *)
Lemma read_loop_step_witness :
  Forall nonempty [[x01]] /\
  exists reason,
    read_loop 1 (verify le_u8 (fun _ => false)) [x00] (map Chunk [[x01]]) =
      (Some (Err (NomError reason)), map Chunk [[x01]]).
Proof.
  assert (Hcs : Forall nonempty [[x01]])
    by (constructor; [discriminate|constructor]).
  split; [exact Hcs|].
  exact (proj1 (proj2 (proj2 (read_loop_step 0 (verify le_u8 (fun _ => false))
    [x00] [[x01]] Hcs))) [x00] Verify (or_introl eq_refl)).
Defined.

(** The message [demo_header] followed by its body ['<'; 0x00], delivered
    whole or in two chunks. *)
Lemma deserialize_deterministic_witness :
  Forall nonempty [demo_header ++ ["<"%byte; x00]] /\
  Forall nonempty [firstn 3 demo_header; skipn 3 demo_header ++ ["<"%byte; x00]] /\
  concat [demo_header ++ ["<"%byte; x00]] =
    concat [firstn 3 demo_header; skipn 3 demo_header ++ ["<"%byte; x00]] /\
  fst (deserialize (MAGIC_HEADER := inst_MAGIC_HEADER)
         (MSG_ID_LOGIN := inst_MSG_ID_LOGIN)
         (has_payload_offset := inst_has_payload_offset)
         (is_modern := inst_is_modern) (to_meta := fun h : BcHeader => h)
         (bcxmls_try_parse := inst_xml_parse) (bcxml_try_parse := inst_xml_parse)
         (crypt := inst_crypt) 10 tt
         (map Chunk [demo_header ++ ["<"%byte; x00]])) =
  fst (deserialize (MAGIC_HEADER := inst_MAGIC_HEADER)
         (MSG_ID_LOGIN := inst_MSG_ID_LOGIN)
         (has_payload_offset := inst_has_payload_offset)
         (is_modern := inst_is_modern) (to_meta := fun h : BcHeader => h)
         (bcxmls_try_parse := inst_xml_parse) (bcxml_try_parse := inst_xml_parse)
         (crypt := inst_crypt) 10 tt
         (map Chunk [firstn 3 demo_header; skipn 3 demo_header ++ ["<"%byte; x00]])).
Proof.
  assert (H1 : Forall nonempty [demo_header ++ ["<"%byte; x00]])
    by (constructor; [vm_compute; discriminate|constructor]).
  assert (H2 : Forall nonempty
                 [firstn 3 demo_header; skipn 3 demo_header ++ ["<"%byte; x00]])
    by (repeat constructor; vm_compute; discriminate).
  assert (H3 : concat [demo_header ++ ["<"%byte; x00]] =
               concat [firstn 3 demo_header; skipn 3 demo_header ++ ["<"%byte; x00]])
    by reflexivity.
  split; [exact H1|]. split; [exact H2|]. split; [exact H3|].
  exact (deserialize_deterministic (MAGIC_HEADER := inst_MAGIC_HEADER)
    (MSG_ID_LOGIN := inst_MSG_ID_LOGIN)
    (has_payload_offset := inst_has_payload_offset) (is_modern := inst_is_modern)
    (to_meta := fun h : BcHeader => h) (bcxmls_try_parse := inst_xml_parse)
    (bcxml_try_parse := inst_xml_parse) (crypt := inst_crypt)
    10 tt _ _ H1 H2 H3).
Defined.

(** The slip behind C1 on a concrete run: an unencrypted message whose xml
    segment is ['<'] and whose payload segment is the non-XML byte 0x00
    gets an [XmlPayload] parsed from the xml segment. *)
Lemma bc_modern_msg_plain_payload_demo :
  bc_modern_msg (bcxmls_try_parse := inst_xml_parse)
    (bcxml_try_parse := inst_xml_parse) (crypt := inst_crypt) tt
    (mkBcHeader 1 2 0 false 0x6414 (Some 1)) ["<"%byte; x00] =
    IOk [] (mkModernMsg (Some ["<"%byte]) (Some (PayloadXml ["<"%byte]))) /\
  inst_xml_parse [x00] = None.
Proof.
  split; vm_compute; reflexivity.
Defined.

(** The slip behind C2 through the driver: a header with body_len 0 and
    payload_offset 1, then one byte, then end of stream. The decoder asks
    for 2^32 - 1 more bytes and the run ends in the I/O error
    [UnexpectedEof], not in a parse error. *)
Lemma deserialize_offset_past_body :
  deserialize (MAGIC_HEADER := inst_MAGIC_HEADER)
    (MSG_ID_LOGIN := inst_MSG_ID_LOGIN)
    (has_payload_offset := inst_has_payload_offset)
    (is_modern := inst_is_modern) (to_meta := fun h : BcHeader => h)
    (bcxmls_try_parse := inst_xml_parse) (bcxml_try_parse := inst_xml_parse)
    (crypt := inst_crypt) 20 tt
    [Chunk [xf0; xde; xbc; x0a;  x01; x00; x00; x00;  x00; x00; x00; x00;
            x00; x00; x00; x00;  x00; x00; x14; x64;  x01; x00; x00; x00;
            x00]] =
    (Some (Err (IoError UnexpectedEof)), []).
Proof.
  vm_compute. reflexivity.
Defined.

(** [bc_header] on [demo_message]: the 24 header bytes are consumed. *)
Lemma bc_header_consumes_witness :
  bc_header (MAGIC_HEADER := inst_MAGIC_HEADER) (has_payload_offset := inst_has_payload_offset) demo_message = IOk ["<"%byte; "<"%byte] (mkBcHeader 1 2 0 false 0x6414 (Some 1)) /\
  ((24 <= length demo_message)%nat /\ ["<"%byte; "<"%byte] = skipn 24 demo_message /\
   field 0 4 demo_message = inst_MAGIC_HEADER /\
   (payload_offset (mkBcHeader 1 2 0 false 0x6414 (Some 1)) <> None <-> inst_has_payload_offset (class (mkBcHeader 1 2 0 false 0x6414 (Some 1))) = true) /\
   0 <= msg_id (mkBcHeader 1 2 0 false 0x6414 (Some 1)) < 2 ^ 32 /\ 0 <= body_len (mkBcHeader 1 2 0 false 0x6414 (Some 1)) < 2 ^ 32 /\
   0 <= enc_offset (mkBcHeader 1 2 0 false 0x6414 (Some 1)) < 2 ^ 32 /\ 0 <= class (mkBcHeader 1 2 0 false 0x6414 (Some 1)) < 2 ^ 16 /\
   (forall o, payload_offset (mkBcHeader 1 2 0 false 0x6414 (Some 1)) = Some o -> 0 <= o < 2 ^ 32)).
Proof.
  assert (E : bc_header (MAGIC_HEADER := inst_MAGIC_HEADER) (has_payload_offset := inst_has_payload_offset) demo_message = IOk ["<"%byte; "<"%byte] (mkBcHeader 1 2 0 false 0x6414 (Some 1)))
    by (vm_compute; reflexivity).
  split; [exact E|].
  exact (bc_header_consumes (MAGIC_HEADER := inst_MAGIC_HEADER) (has_payload_offset := inst_has_payload_offset) _ _ _ E).
Defined.

(** The header of [demo_message], written out by [header_bytes] and read
    back by [bc_header]. *)
Lemma bc_header_round_trip_witness :
  0 <= inst_MAGIC_HEADER < 2 ^ 32 /\
  bc_header (MAGIC_HEADER := inst_MAGIC_HEADER) (has_payload_offset := inst_has_payload_offset) (header_bytes (MAGIC_HEADER := inst_MAGIC_HEADER) (mkBcHeader 1 2 0 false 0x6414 (Some 1)) ++ [x07]) =
    IOk [x07] (mkBcHeader 1 2 0 false 0x6414 (Some 1)).
Proof.
  assert (Hm : 0 <= inst_MAGIC_HEADER < 2 ^ 32) by (unfold inst_MAGIC_HEADER; lia).
  assert (Hid : 0 <= msg_id (mkBcHeader 1 2 0 false 0x6414 (Some 1)) < 2 ^ 32) by (cbn; lia).
  assert (Hlen : 0 <= body_len (mkBcHeader 1 2 0 false 0x6414 (Some 1)) < 2 ^ 32) by (cbn; lia).
  assert (Henc : 0 <= enc_offset (mkBcHeader 1 2 0 false 0x6414 (Some 1)) < 2 ^ 32) by (cbn; lia).
  assert (Hcls : 0 <= class (mkBcHeader 1 2 0 false 0x6414 (Some 1)) < 2 ^ 16) by (cbn; lia).
  assert (Hpo : forall o, payload_offset (mkBcHeader 1 2 0 false 0x6414 (Some 1)) = Some o -> 0 <= o < 2 ^ 32)
    by (intros o Eo; cbn in Eo; injection Eo as <-; lia).
  assert (Hhas : payload_offset (mkBcHeader 1 2 0 false 0x6414 (Some 1)) <> None <->
                 inst_has_payload_offset (class (mkBcHeader 1 2 0 false 0x6414 (Some 1))) = true)
    by (vm_compute; split; [reflexivity|discriminate]).
  split; [exact Hm|].
  exact (bc_header_round_trip (MAGIC_HEADER := inst_MAGIC_HEADER) (has_payload_offset := inst_has_payload_offset) (mkBcHeader 1 2 0 false 0x6414 (Some 1)) [x07] Hm Hid Hlen Henc Hcls Hpo Hhas).
Defined.

(** A modern message without payload offset: the whole body is the xml
    segment and there is no payload. *)
Lemma bc_modern_msg_no_payload_offset_witness :
  bc_modern_msg
      (bcxmls_try_parse := inst_xml_parse) (bcxml_try_parse := inst_xml_parse)
      (crypt := inst_crypt) tt (mkBcHeader 1 1 0 false 0x6614 None) ["<"%byte] =
    IOk [] (mkModernMsg (Some ["<"%byte]) None) /\
  payload_offset (mkBcHeader 1 1 0 false 0x6614 None) = None /\
  payload (BcXmls := list byte) (BcXml := list byte)
    (mkModernMsg (Some ["<"%byte]) None) = None.
Proof.
  assert (E : bc_modern_msg
      (bcxmls_try_parse := inst_xml_parse) (bcxml_try_parse := inst_xml_parse)
      (crypt := inst_crypt) tt (mkBcHeader 1 1 0 false 0x6614 None) ["<"%byte] =
                IOk [] (mkModernMsg (Some ["<"%byte]) None))
    by (vm_compute; reflexivity).
  assert (Hn : payload_offset (mkBcHeader 1 1 0 false 0x6614 None) = None)
    by reflexivity.
  split; [exact E|]. split; [exact Hn|].
  exact (bc_modern_msg_no_payload_offset
      (bcxmls_try_parse := inst_xml_parse) (bcxml_try_parse := inst_xml_parse) (crypt := inst_crypt) _ _ _ _ _ E Hn).
Defined.

(** The same message: one byte of body is consumed, the body length. *)
Lemma bc_modern_msg_consumes_witness :
  bc_modern_msg
      (bcxmls_try_parse := inst_xml_parse) (bcxml_try_parse := inst_xml_parse)
      (crypt := inst_crypt) tt (mkBcHeader 1 1 0 false 0x6614 None) ["<"%byte] =
    IOk [] (mkModernMsg (Some ["<"%byte]) None) /\
  0 <= xml_len_of (mkBcHeader 1 1 0 false 0x6614 None) /\
  (let h := mkBcHeader 1 1 0 false 0x6614 None in
   let n := xml_len_of h + u32_sub (body_len h) (xml_len_of h) in
   n <= Z.of_nat (length ["<"%byte]) /\ [] = skipn (Z.to_nat n) ["<"%byte] /\
   (xml_len_of h <= body_len h < 2 ^ 32 -> n = body_len h) /\
   (0 <= body_len h < xml_len_of h -> 2 ^ 32 <= n)).
Proof.
  assert (E : bc_modern_msg
      (bcxmls_try_parse := inst_xml_parse) (bcxml_try_parse := inst_xml_parse)
      (crypt := inst_crypt) tt (mkBcHeader 1 1 0 false 0x6614 None) ["<"%byte] =
                IOk [] (mkModernMsg (Some ["<"%byte]) None))
    by (vm_compute; reflexivity).
  assert (HL : 0 <= xml_len_of (mkBcHeader 1 1 0 false 0x6614 None))
    by (vm_compute; discriminate).
  split; [exact E|]. split; [exact HL|].
  exact (bc_modern_msg_consumes
      (bcxmls_try_parse := inst_xml_parse) (bcxml_try_parse := inst_xml_parse) (crypt := inst_crypt) _ _ _ _ _ E HL).
Defined.

(** The legacy login body of the test of de.rs behind a legacy login
    header: two 32-byte fields, as received. *)
Lemma bc_body_legacy_login_ascii_witness :
  inst_is_modern (mkBcHeader 1 64 0 false 0x6514 None) = false /\
  msg_id (mkBcHeader 1 64 0 false 0x6514 None) = inst_MSG_ID_LOGIN /\
  (64 <= length demo_legacy_body)%nat /\
  Forall (fun b => u8 b < 128) (firstn 64 demo_legacy_body) /\
  bc_body (MSG_ID_LOGIN := inst_MSG_ID_LOGIN) (is_modern := inst_is_modern)
      (bcxmls_try_parse := inst_xml_parse) (bcxml_try_parse := inst_xml_parse)
      (crypt := inst_crypt) tt (mkBcHeader 1 64 0 false 0x6514 None) demo_legacy_body =
    IOk (skipn 64 demo_legacy_body)
      (LegacyMsgBody (LoginMsg (firstn 32 demo_legacy_body)
                               (firstn 32 (skipn 32 demo_legacy_body)))).
Proof.
  assert (Hleg : inst_is_modern (mkBcHeader 1 64 0 false 0x6514 None) = false)
    by reflexivity.
  assert (Hid : msg_id (mkBcHeader 1 64 0 false 0x6514 None) = inst_MSG_ID_LOGIN)
    by reflexivity.
  assert (Hl : (64 <= length demo_legacy_body)%nat) by (vm_compute; lia).
  assert (Ha : Forall (fun b => u8 b < 128) (firstn 64 demo_legacy_body))
    by (vm_compute; repeat constructor).
  split; [exact Hleg|]. split; [exact Hid|]. split; [exact Hl|]. split; [exact Ha|].
  exact (bc_body_legacy_login_ascii (MSG_ID_LOGIN := inst_MSG_ID_LOGIN) (is_modern := inst_is_modern)
      (bcxmls_try_parse := inst_xml_parse) (bcxml_try_parse := inst_xml_parse)
      (crypt := inst_crypt) tt _ _ Hleg Hid Hl Ha).
Defined.

(** A 32-byte field starting with 0xFF: [hex32] fails in its map_res. *)
Lemma hex32_rejects_forbidden_byte_witness :
  (32 <= length (xff :: repeat x00 31))%nat /\
  In xff (firstn 32 (xff :: repeat x00 31)) /\
  hex32 (xff :: repeat x00 31) = IErr (Nom.Error (xff :: repeat x00 31) MapRes).
Proof.
  assert (Hl : (32 <= length (xff :: repeat x00 31))%nat) by (vm_compute; lia).
  assert (Hin : In xff (firstn 32 (xff :: repeat x00 31))) by (left; reflexivity).
  assert (Hb : u8 xff = 0xC0 \/ u8 xff = 0xC1 \/ 0xF5 <= u8 xff)
    by (right; right; vm_compute; discriminate).
  split; [exact Hl|]. split; [exact Hin|].
  exact (hex32_rejects_forbidden_byte _ _ Hl Hin Hb).
Defined.

(** [demo_message] parsed whole: nothing is left, 24 + body_len bytes. *)
Lemma bc_msg_consumes_witness :
  bc_header (MAGIC_HEADER := inst_MAGIC_HEADER) (has_payload_offset := inst_has_payload_offset) demo_message = IOk ["<"%byte; "<"%byte] (mkBcHeader 1 2 0 false 0x6414 (Some 1)) /\
  bc_msg (MAGIC_HEADER := inst_MAGIC_HEADER) (MSG_ID_LOGIN := inst_MSG_ID_LOGIN)
      (has_payload_offset := inst_has_payload_offset) (is_modern := inst_is_modern)
      (to_meta := fun h : BcHeader => h)
      (bcxmls_try_parse := inst_xml_parse) (bcxml_try_parse := inst_xml_parse)
      (crypt := inst_crypt) tt demo_message = IOk [] (mkBc (mkBcHeader 1 2 0 false 0x6414 (Some 1)) (ModernMsgBody (mkModernMsg (Some ["<"%byte]) (Some (PayloadXml ["<"%byte]))))) /\
  ([] : list byte) = skipn (24 + Z.to_nat (body_len (mkBcHeader 1 2 0 false 0x6414 (Some 1)))) demo_message.
Proof.
  assert (Hh : bc_header (MAGIC_HEADER := inst_MAGIC_HEADER) (has_payload_offset := inst_has_payload_offset) demo_message = IOk ["<"%byte; "<"%byte] (mkBcHeader 1 2 0 false 0x6414 (Some 1)))
    by (vm_compute; reflexivity).
  assert (E : bc_msg (MAGIC_HEADER := inst_MAGIC_HEADER) (MSG_ID_LOGIN := inst_MSG_ID_LOGIN)
      (has_payload_offset := inst_has_payload_offset) (is_modern := inst_is_modern)
      (to_meta := fun h : BcHeader => h)
      (bcxmls_try_parse := inst_xml_parse) (bcxml_try_parse := inst_xml_parse)
      (crypt := inst_crypt) tt demo_message = IOk [] (mkBc (mkBcHeader 1 2 0 false 0x6414 (Some 1)) (ModernMsgBody (mkModernMsg (Some ["<"%byte]) (Some (PayloadXml ["<"%byte])))))) by (vm_compute; reflexivity).
  split; [exact Hh|]. split; [exact E|].
  exact (proj1 (bc_msg_consumes (MAGIC_HEADER := inst_MAGIC_HEADER) (MSG_ID_LOGIN := inst_MSG_ID_LOGIN)
      (has_payload_offset := inst_has_payload_offset) (is_modern := inst_is_modern)
      (to_meta := fun h : BcHeader => h)
      (bcxmls_try_parse := inst_xml_parse) (bcxml_try_parse := inst_xml_parse)
      (crypt := inst_crypt) tt _ _ _ _ _ Hh E) eq_refl
    (ltac:(vm_compute; discriminate))).
Defined.

(** A stream that does not start with the magic: the driver stops with the
    reason "Nom Error". *)
Lemma read_from_reader_nom_reasons_witness :
  read_from_reader 10 (bc_msg (MAGIC_HEADER := inst_MAGIC_HEADER) (MSG_ID_LOGIN := inst_MSG_ID_LOGIN)
      (has_payload_offset := inst_has_payload_offset) (is_modern := inst_is_modern)
      (to_meta := fun h : BcHeader => h)
      (bcxmls_try_parse := inst_xml_parse) (bcxml_try_parse := inst_xml_parse)
      (crypt := inst_crypt) tt) [Chunk [x00; x00; x00; x00]] =
    (Some (Err (NomError "Nom Error")), []) /\
  ("Nom Error" = "Nom Error" \/ "Nom Error" = "Nom Failure")%string.
Proof.
  assert (E : read_from_reader 10 (bc_msg (MAGIC_HEADER := inst_MAGIC_HEADER) (MSG_ID_LOGIN := inst_MSG_ID_LOGIN)
      (has_payload_offset := inst_has_payload_offset) (is_modern := inst_is_modern)
      (to_meta := fun h : BcHeader => h)
      (bcxmls_try_parse := inst_xml_parse) (bcxml_try_parse := inst_xml_parse)
      (crypt := inst_crypt) tt) [Chunk [x00; x00; x00; x00]] =
                (Some (Err (NomError "Nom Error")), [])) by (vm_compute; reflexivity).
  split; [exact E|].
  exact (read_from_reader_nom_reasons 10 _ _ _ _ E).
Defined.

(** The same run through [deserialize]. *)
Lemma deserialize_nom_error_witness :
  deserialize (MAGIC_HEADER := inst_MAGIC_HEADER) (MSG_ID_LOGIN := inst_MSG_ID_LOGIN)
      (has_payload_offset := inst_has_payload_offset) (is_modern := inst_is_modern)
      (to_meta := fun h : BcHeader => h)
      (bcxmls_try_parse := inst_xml_parse) (bcxml_try_parse := inst_xml_parse) (crypt := inst_crypt) 10 tt [Chunk [x00; x00; x00; x00]] =
    (Some (Err (NomError "Nom Error")), []) /\
  "Nom Error"%string = "Nom Error"%string.
Proof.
  assert (E : deserialize (MAGIC_HEADER := inst_MAGIC_HEADER) (MSG_ID_LOGIN := inst_MSG_ID_LOGIN)
      (has_payload_offset := inst_has_payload_offset) (is_modern := inst_is_modern)
      (to_meta := fun h : BcHeader => h)
      (bcxmls_try_parse := inst_xml_parse) (bcxml_try_parse := inst_xml_parse) (crypt := inst_crypt) 10 tt [Chunk [x00; x00; x00; x00]] =
                (Some (Err (NomError "Nom Error")), [])) by (vm_compute; reflexivity).
  split; [exact E|].
  exact (deserialize_nom_error (MAGIC_HEADER := inst_MAGIC_HEADER) (MSG_ID_LOGIN := inst_MSG_ID_LOGIN)
      (has_payload_offset := inst_has_payload_offset) (is_modern := inst_is_modern)
      (to_meta := fun h : BcHeader => h)
      (bcxmls_try_parse := inst_xml_parse) (bcxml_try_parse := inst_xml_parse) (crypt := inst_crypt) 10 tt _ _ _ E).
Defined.

(** [demo_message] and one byte more in two chunks: the message is read
    from a prefix of the stream, the rest stays in the reader. *)
Lemma read_from_reader_ok_prefix_witness :
  Forall nonempty [firstn 3 demo_message; skipn 3 demo_message ++ [x07]] /\
  read_from_reader 12 (bc_msg (MAGIC_HEADER := inst_MAGIC_HEADER) (MSG_ID_LOGIN := inst_MSG_ID_LOGIN)
      (has_payload_offset := inst_has_payload_offset) (is_modern := inst_is_modern)
      (to_meta := fun h : BcHeader => h)
      (bcxmls_try_parse := inst_xml_parse) (bcxml_try_parse := inst_xml_parse)
      (crypt := inst_crypt) tt)
    (map Chunk [firstn 3 demo_message; skipn 3 demo_message ++ [x07]]) =
    (Some (Ok (mkBc (mkBcHeader 1 2 0 false 0x6414 (Some 1)) (ModernMsgBody (mkModernMsg (Some ["<"%byte]) (Some (PayloadXml ["<"%byte])))))), [Chunk [x07]]) /\
  exists k rest cs', bc_msg (MAGIC_HEADER := inst_MAGIC_HEADER) (MSG_ID_LOGIN := inst_MSG_ID_LOGIN)
      (has_payload_offset := inst_has_payload_offset) (is_modern := inst_is_modern)
      (to_meta := fun h : BcHeader => h)
      (bcxmls_try_parse := inst_xml_parse) (bcxml_try_parse := inst_xml_parse)
      (crypt := inst_crypt) tt
      (firstn k (concat [firstn 3 demo_message; skipn 3 demo_message ++ [x07]])) =
      IOk rest (mkBc (mkBcHeader 1 2 0 false 0x6414 (Some 1)) (ModernMsgBody (mkModernMsg (Some ["<"%byte]) (Some (PayloadXml ["<"%byte]))))) /\
    [Chunk [x07]] = map Chunk cs' /\
    concat cs' = skipn k (concat [firstn 3 demo_message; skipn 3 demo_message ++ [x07]]).
Proof.
  assert (Hcs : Forall nonempty [firstn 3 demo_message; skipn 3 demo_message ++ [x07]])
    by (repeat constructor; vm_compute; discriminate).
  assert (E : read_from_reader 12 (bc_msg (MAGIC_HEADER := inst_MAGIC_HEADER) (MSG_ID_LOGIN := inst_MSG_ID_LOGIN)
      (has_payload_offset := inst_has_payload_offset) (is_modern := inst_is_modern)
      (to_meta := fun h : BcHeader => h)
      (bcxmls_try_parse := inst_xml_parse) (bcxml_try_parse := inst_xml_parse)
      (crypt := inst_crypt) tt)
                (map Chunk [firstn 3 demo_message; skipn 3 demo_message ++ [x07]]) =
                (Some (Ok (mkBc (mkBcHeader 1 2 0 false 0x6414 (Some 1)) (ModernMsgBody (mkModernMsg (Some ["<"%byte]) (Some (PayloadXml ["<"%byte])))))), [Chunk [x07]])) by (vm_compute; reflexivity).
  split; [exact Hcs|]. split; [exact E|].
  exact (read_from_reader_ok_prefix 12 _ _ _ _ Hcs E).
Defined.

(** Four bytes in one chunk and fuel 5: the driver comes to an answer. *)
Lemma read_from_reader_terminates_witness :
  Forall nonempty [[x00; x00; x00; x00]] /\
  (length (concat [[x00; x00; x00; x00]]) < 5)%nat /\
  fst (read_from_reader 5 (bc_msg (MAGIC_HEADER := inst_MAGIC_HEADER) (MSG_ID_LOGIN := inst_MSG_ID_LOGIN)
      (has_payload_offset := inst_has_payload_offset) (is_modern := inst_is_modern)
      (to_meta := fun h : BcHeader => h)
      (bcxmls_try_parse := inst_xml_parse) (bcxml_try_parse := inst_xml_parse)
      (crypt := inst_crypt) tt) (map Chunk [[x00; x00; x00; x00]])) <> None.
Proof.
  assert (Hcs : Forall nonempty [[x00; x00; x00; x00]])
    by (constructor; [discriminate|constructor]).
  assert (Hf : (length (concat [[x00; x00; x00; x00]]) < 5)%nat) by (vm_compute; lia).
  split; [exact Hcs|]. split; [exact Hf|].
  exact (read_from_reader_terminates 5 (bc_msg (MAGIC_HEADER := inst_MAGIC_HEADER) (MSG_ID_LOGIN := inst_MSG_ID_LOGIN)
      (has_payload_offset := inst_has_payload_offset) (is_modern := inst_is_modern)
      (to_meta := fun h : BcHeader => h)
      (bcxmls_try_parse := inst_xml_parse) (bcxml_try_parse := inst_xml_parse)
      (crypt := inst_crypt) tt) _ Hcs Hf).
Defined.

(** The message parser on an empty buffer asks for 4 bytes; the reader has
    one and then fails: the driver reports that I/O error. *)
Lemma read_loop_io_error_witness :
  bc_msg (MAGIC_HEADER := inst_MAGIC_HEADER) (MSG_ID_LOGIN := inst_MSG_ID_LOGIN)
      (has_payload_offset := inst_has_payload_offset) (is_modern := inst_is_modern)
      (to_meta := fun h : BcHeader => h)
      (bcxmls_try_parse := inst_xml_parse) (bcxml_try_parse := inst_xml_parse)
      (crypt := inst_crypt) tt [] = IErr (Incomplete (Size 4)) /\
  Forall nonempty [[xf0]] /\ Z.of_nat (length (concat [[xf0]])) < 4 /\
  read_loop 1 (bc_msg (MAGIC_HEADER := inst_MAGIC_HEADER) (MSG_ID_LOGIN := inst_MSG_ID_LOGIN)
      (has_payload_offset := inst_has_payload_offset) (is_modern := inst_is_modern)
      (to_meta := fun h : BcHeader => h)
      (bcxmls_try_parse := inst_xml_parse) (bcxml_try_parse := inst_xml_parse)
      (crypt := inst_crypt) tt) [] (map Chunk [[xf0]] ++ [IoFail UnexpectedEof]) =
    (Some (Err (IoError UnexpectedEof)), []).
Proof.
  assert (Hp : bc_msg (MAGIC_HEADER := inst_MAGIC_HEADER) (MSG_ID_LOGIN := inst_MSG_ID_LOGIN)
      (has_payload_offset := inst_has_payload_offset) (is_modern := inst_is_modern)
      (to_meta := fun h : BcHeader => h)
      (bcxmls_try_parse := inst_xml_parse) (bcxml_try_parse := inst_xml_parse)
      (crypt := inst_crypt) tt [] = IErr (Incomplete (Size 4))) by (vm_compute; reflexivity).
  assert (Hcs : Forall nonempty [[xf0]]) by (constructor; [discriminate|constructor]).
  assert (Hl : Z.of_nat (length (concat [[xf0]])) < 4) by (vm_compute; reflexivity).
  assert (Hk : UnexpectedEof <> Interrupted) by discriminate.
  split; [exact Hp|]. split; [exact Hcs|]. split; [exact Hl|].
  exact (read_loop_io_error 0 _ _ _ _ _ [] Hp Hcs Hl Hk).
Defined.

(** The header of [demo_message] read again from its 24 bytes followed by
    other bytes. *)
Lemma bc_header_prefix_only_witness :
  bc_header (MAGIC_HEADER := inst_MAGIC_HEADER) (has_payload_offset := inst_has_payload_offset) demo_message = IOk ["<"%byte; "<"%byte] (mkBcHeader 1 2 0 false 0x6414 (Some 1)) /\
  bc_header (MAGIC_HEADER := inst_MAGIC_HEADER) (has_payload_offset := inst_has_payload_offset) (firstn 24 demo_message ++ [x07]) = IOk [x07] (mkBcHeader 1 2 0 false 0x6414 (Some 1)).
Proof.
  assert (E : bc_header (MAGIC_HEADER := inst_MAGIC_HEADER) (has_payload_offset := inst_has_payload_offset) demo_message = IOk ["<"%byte; "<"%byte] (mkBcHeader 1 2 0 false 0x6414 (Some 1)))
    by (vm_compute; reflexivity).
  split; [exact E|].
  exact (bc_header_prefix_only (MAGIC_HEADER := inst_MAGIC_HEADER) (has_payload_offset := inst_has_payload_offset) _ _ _ [x07] E).
Defined.

(** [demo_message] with one byte appended: same message, that byte left. *)
Lemma bc_msg_app_stable_witness :
  bc_msg (MAGIC_HEADER := inst_MAGIC_HEADER) (MSG_ID_LOGIN := inst_MSG_ID_LOGIN)
      (has_payload_offset := inst_has_payload_offset) (is_modern := inst_is_modern)
      (to_meta := fun h : BcHeader => h)
      (bcxmls_try_parse := inst_xml_parse) (bcxml_try_parse := inst_xml_parse)
      (crypt := inst_crypt) tt demo_message = IOk [] (mkBc (mkBcHeader 1 2 0 false 0x6414 (Some 1)) (ModernMsgBody (mkModernMsg (Some ["<"%byte]) (Some (PayloadXml ["<"%byte]))))) /\
  bc_msg (MAGIC_HEADER := inst_MAGIC_HEADER) (MSG_ID_LOGIN := inst_MSG_ID_LOGIN)
      (has_payload_offset := inst_has_payload_offset) (is_modern := inst_is_modern)
      (to_meta := fun h : BcHeader => h)
      (bcxmls_try_parse := inst_xml_parse) (bcxml_try_parse := inst_xml_parse)
      (crypt := inst_crypt) tt (demo_message ++ [x07]) = IOk ([] ++ [x07]) (mkBc (mkBcHeader 1 2 0 false 0x6414 (Some 1)) (ModernMsgBody (mkModernMsg (Some ["<"%byte]) (Some (PayloadXml ["<"%byte]))))).
Proof.
  assert (E : bc_msg (MAGIC_HEADER := inst_MAGIC_HEADER) (MSG_ID_LOGIN := inst_MSG_ID_LOGIN)
      (has_payload_offset := inst_has_payload_offset) (is_modern := inst_is_modern)
      (to_meta := fun h : BcHeader => h)
      (bcxmls_try_parse := inst_xml_parse) (bcxml_try_parse := inst_xml_parse)
      (crypt := inst_crypt) tt demo_message = IOk [] (mkBc (mkBcHeader 1 2 0 false 0x6414 (Some 1)) (ModernMsgBody (mkModernMsg (Some ["<"%byte]) (Some (PayloadXml ["<"%byte])))))) by (vm_compute; reflexivity).
  split; [exact E|].
  exact (bc_msg_app_stable (MAGIC_HEADER := inst_MAGIC_HEADER) (MSG_ID_LOGIN := inst_MSG_ID_LOGIN)
      (has_payload_offset := inst_has_payload_offset) (is_modern := inst_is_modern)
      (to_meta := fun h : BcHeader => h)
      (bcxmls_try_parse := inst_xml_parse) (bcxml_try_parse := inst_xml_parse)
      (crypt := inst_crypt) tt _ _ [x07] _ E).
Defined.

(** [demo_message] and one more byte, split inside the header. *)
Lemma deserialize_one_message_witness :
  Forall nonempty [firstn 3 demo_message; skipn 3 demo_message ++ [x07]] /\
  concat [firstn 3 demo_message; skipn 3 demo_message ++ [x07]] = demo_message ++ [x07] /\
  bc_msg (MAGIC_HEADER := inst_MAGIC_HEADER) (MSG_ID_LOGIN := inst_MSG_ID_LOGIN)
      (has_payload_offset := inst_has_payload_offset) (is_modern := inst_is_modern)
      (to_meta := fun h : BcHeader => h)
      (bcxmls_try_parse := inst_xml_parse) (bcxml_try_parse := inst_xml_parse)
      (crypt := inst_crypt) tt demo_message = IOk [] (mkBc (mkBcHeader 1 2 0 false 0x6414 (Some 1)) (ModernMsgBody (mkModernMsg (Some ["<"%byte]) (Some (PayloadXml ["<"%byte]))))) /\
  exists cs', deserialize (MAGIC_HEADER := inst_MAGIC_HEADER) (MSG_ID_LOGIN := inst_MSG_ID_LOGIN)
      (has_payload_offset := inst_has_payload_offset) (is_modern := inst_is_modern)
      (to_meta := fun h : BcHeader => h)
      (bcxmls_try_parse := inst_xml_parse) (bcxml_try_parse := inst_xml_parse) (crypt := inst_crypt) 11 tt
      (map Chunk [firstn 3 demo_message; skipn 3 demo_message ++ [x07]]) =
      (Some (Ok (mkBc (mkBcHeader 1 2 0 false 0x6414 (Some 1)) (ModernMsgBody (mkModernMsg (Some ["<"%byte]) (Some (PayloadXml ["<"%byte])))))), map Chunk cs') /\ concat cs' = [x07].
Proof.
  assert (Hcs : Forall nonempty [firstn 3 demo_message; skipn 3 demo_message ++ [x07]])
    by (repeat constructor; vm_compute; discriminate).
  assert (Hs : concat [firstn 3 demo_message; skipn 3 demo_message ++ [x07]] =
               demo_message ++ [x07]) by reflexivity.
  assert (Hm : bc_msg (MAGIC_HEADER := inst_MAGIC_HEADER) (MSG_ID_LOGIN := inst_MSG_ID_LOGIN)
      (has_payload_offset := inst_has_payload_offset) (is_modern := inst_is_modern)
      (to_meta := fun h : BcHeader => h)
      (bcxmls_try_parse := inst_xml_parse) (bcxml_try_parse := inst_xml_parse)
      (crypt := inst_crypt) tt demo_message = IOk [] (mkBc (mkBcHeader 1 2 0 false 0x6414 (Some 1)) (ModernMsgBody (mkModernMsg (Some ["<"%byte]) (Some (PayloadXml ["<"%byte])))))) by (vm_compute; reflexivity).
  assert (Hmod : forall r h, bc_header (MAGIC_HEADER := inst_MAGIC_HEADER) (has_payload_offset := inst_has_payload_offset) demo_message = IOk r h ->
                   inst_is_modern h = true -> xml_len_of h <= body_len h)
    by (intros r h Eh _; vm_compute in Eh; injection Eh as _ <-;
        vm_compute; discriminate).
  assert (Hf : (10 < 11)%nat) by lia.
  split; [exact Hcs|]. split; [exact Hs|]. split; [exact Hm|].
  exact (deserialize_one_message (MAGIC_HEADER := inst_MAGIC_HEADER) (MSG_ID_LOGIN := inst_MSG_ID_LOGIN)
      (has_payload_offset := inst_has_payload_offset) (is_modern := inst_is_modern)
      (to_meta := fun h : BcHeader => h)
      (bcxmls_try_parse := inst_xml_parse) (bcxml_try_parse := inst_xml_parse) (crypt := inst_crypt) 11 tt _ _ _ _ Hcs Hs Hm Hmod Hf).
Defined.

(** [demo_message], then a legacy message with msg_id 2 and no body, then
    one more byte, in three chunks that cut both messages. *)
Lemma deserialize_two_messages_witness :
  Forall nonempty [firstn 3 demo_message; skipn 3 demo_message ++ firstn 10 [xf0; xde; xbc; x0a;  x02; x00; x00; x00;  x00; x00; x00; x00;
     x00; x00; x00; x00;  x00; x00; x14; x65];
     skipn 10 [xf0; xde; xbc; x0a;  x02; x00; x00; x00;  x00; x00; x00; x00;
     x00; x00; x00; x00;  x00; x00; x14; x65] ++ [x07]] /\
  concat [firstn 3 demo_message; skipn 3 demo_message ++ firstn 10 [xf0; xde; xbc; x0a;  x02; x00; x00; x00;  x00; x00; x00; x00;
     x00; x00; x00; x00;  x00; x00; x14; x65];
     skipn 10 [xf0; xde; xbc; x0a;  x02; x00; x00; x00;  x00; x00; x00; x00;
     x00; x00; x00; x00;  x00; x00; x14; x65] ++ [x07]] =
    demo_message ++ [xf0; xde; xbc; x0a;  x02; x00; x00; x00;  x00; x00; x00; x00;
     x00; x00; x00; x00;  x00; x00; x14; x65] ++ [x07] /\
  bc_msg (MAGIC_HEADER := inst_MAGIC_HEADER) (MSG_ID_LOGIN := inst_MSG_ID_LOGIN)
      (has_payload_offset := inst_has_payload_offset) (is_modern := inst_is_modern)
      (to_meta := fun h : BcHeader => h)
      (bcxmls_try_parse := inst_xml_parse) (bcxml_try_parse := inst_xml_parse)
      (crypt := inst_crypt) tt demo_message = IOk [] (mkBc (mkBcHeader 1 2 0 false 0x6414 (Some 1))
      (ModernMsgBody (mkModernMsg (Some ["<"%byte]) (Some (PayloadXml ["<"%byte]))))) /\
  bc_msg (MAGIC_HEADER := inst_MAGIC_HEADER) (MSG_ID_LOGIN := inst_MSG_ID_LOGIN)
      (has_payload_offset := inst_has_payload_offset) (is_modern := inst_is_modern)
      (to_meta := fun h : BcHeader => h)
      (bcxmls_try_parse := inst_xml_parse) (bcxml_try_parse := inst_xml_parse)
      (crypt := inst_crypt) tt [xf0; xde; xbc; x0a;  x02; x00; x00; x00;  x00; x00; x00; x00;
     x00; x00; x00; x00;  x00; x00; x14; x65] =
    IOk [] (mkBc (mkBcHeader 2 0 0 false 0x6514 None) (LegacyMsgBody UnknownMsg)) /\
  exists cs1 cs2,
    deserialize (MAGIC_HEADER := inst_MAGIC_HEADER) (MSG_ID_LOGIN := inst_MSG_ID_LOGIN)
      (has_payload_offset := inst_has_payload_offset) (is_modern := inst_is_modern)
      (to_meta := fun h : BcHeader => h)
      (bcxmls_try_parse := inst_xml_parse) (bcxml_try_parse := inst_xml_parse)
      (crypt := inst_crypt) 11 tt (map Chunk [firstn 3 demo_message; skipn 3 demo_message ++ firstn 10 [xf0; xde; xbc; x0a;  x02; x00; x00; x00;  x00; x00; x00; x00;
     x00; x00; x00; x00;  x00; x00; x14; x65];
     skipn 10 [xf0; xde; xbc; x0a;  x02; x00; x00; x00;  x00; x00; x00; x00;
     x00; x00; x00; x00;  x00; x00; x14; x65] ++ [x07]]) =
      (Some (Ok (mkBc (mkBcHeader 1 2 0 false 0x6414 (Some 1))
      (ModernMsgBody (mkModernMsg (Some ["<"%byte]) (Some (PayloadXml ["<"%byte])))))), map Chunk cs1) /\
    deserialize (MAGIC_HEADER := inst_MAGIC_HEADER) (MSG_ID_LOGIN := inst_MSG_ID_LOGIN)
      (has_payload_offset := inst_has_payload_offset) (is_modern := inst_is_modern)
      (to_meta := fun h : BcHeader => h)
      (bcxmls_try_parse := inst_xml_parse) (bcxml_try_parse := inst_xml_parse)
      (crypt := inst_crypt) 11 tt (map Chunk cs1) =
      (Some (Ok (mkBc (mkBcHeader 2 0 0 false 0x6514 None) (LegacyMsgBody UnknownMsg))), map Chunk cs2) /\
    concat cs2 = [x07].
Proof.
  assert (Hcs : Forall nonempty [firstn 3 demo_message; skipn 3 demo_message ++ firstn 10 [xf0; xde; xbc; x0a;  x02; x00; x00; x00;  x00; x00; x00; x00;
     x00; x00; x00; x00;  x00; x00; x14; x65];
     skipn 10 [xf0; xde; xbc; x0a;  x02; x00; x00; x00;  x00; x00; x00; x00;
     x00; x00; x00; x00;  x00; x00; x14; x65] ++ [x07]])
    by (repeat constructor; vm_compute; discriminate).
  assert (Hs : concat [firstn 3 demo_message; skipn 3 demo_message ++ firstn 10 [xf0; xde; xbc; x0a;  x02; x00; x00; x00;  x00; x00; x00; x00;
     x00; x00; x00; x00;  x00; x00; x14; x65];
     skipn 10 [xf0; xde; xbc; x0a;  x02; x00; x00; x00;  x00; x00; x00; x00;
     x00; x00; x00; x00;  x00; x00; x14; x65] ++ [x07]] =
    demo_message ++ [xf0; xde; xbc; x0a;  x02; x00; x00; x00;  x00; x00; x00; x00;
     x00; x00; x00; x00;  x00; x00; x14; x65] ++ [x07]) by reflexivity.
  assert (Hm1 : bc_msg (MAGIC_HEADER := inst_MAGIC_HEADER) (MSG_ID_LOGIN := inst_MSG_ID_LOGIN)
      (has_payload_offset := inst_has_payload_offset) (is_modern := inst_is_modern)
      (to_meta := fun h : BcHeader => h)
      (bcxmls_try_parse := inst_xml_parse) (bcxml_try_parse := inst_xml_parse)
      (crypt := inst_crypt) tt demo_message = IOk [] (mkBc (mkBcHeader 1 2 0 false 0x6414 (Some 1))
      (ModernMsgBody (mkModernMsg (Some ["<"%byte]) (Some (PayloadXml ["<"%byte])))))) by (vm_compute; reflexivity).
  assert (Hm2 : bc_msg (MAGIC_HEADER := inst_MAGIC_HEADER) (MSG_ID_LOGIN := inst_MSG_ID_LOGIN)
      (has_payload_offset := inst_has_payload_offset) (is_modern := inst_is_modern)
      (to_meta := fun h : BcHeader => h)
      (bcxmls_try_parse := inst_xml_parse) (bcxml_try_parse := inst_xml_parse)
      (crypt := inst_crypt) tt [xf0; xde; xbc; x0a;  x02; x00; x00; x00;  x00; x00; x00; x00;
     x00; x00; x00; x00;  x00; x00; x14; x65] =
    IOk [] (mkBc (mkBcHeader 2 0 0 false 0x6514 None) (LegacyMsgBody UnknownMsg))) by (vm_compute; reflexivity).
  assert (Hmod1 : forall r h, bc_header (MAGIC_HEADER := inst_MAGIC_HEADER) (has_payload_offset := inst_has_payload_offset) demo_message = IOk r h ->
                    inst_is_modern h = true -> xml_len_of h <= body_len h)
    by (intros r h Eh _; vm_compute in Eh; injection Eh as _ <-;
        vm_compute; discriminate).
  assert (Hmod2 : forall r h, bc_header (MAGIC_HEADER := inst_MAGIC_HEADER) (has_payload_offset := inst_has_payload_offset)
                    [xf0; xde; xbc; x0a;  x02; x00; x00; x00;  x00; x00; x00; x00;
     x00; x00; x00; x00;  x00; x00; x14; x65] = IOk r h ->
                    inst_is_modern h = true -> xml_len_of h <= body_len h)
    by (intros r h Eh Em; vm_compute in Eh; injection Eh as _ <-;
        vm_compute in Em; discriminate).
  assert (Hf : (10 < 11)%nat) by lia.
  split; [exact Hcs|]. split; [exact Hs|]. split; [exact Hm1|]. split; [exact Hm2|].
  exact (deserialize_two_messages (MAGIC_HEADER := inst_MAGIC_HEADER) (MSG_ID_LOGIN := inst_MSG_ID_LOGIN)
      (has_payload_offset := inst_has_payload_offset) (is_modern := inst_is_modern)
      (to_meta := fun h : BcHeader => h)
      (bcxmls_try_parse := inst_xml_parse) (bcxml_try_parse := inst_xml_parse)
      (crypt := inst_crypt) 11 tt _ _ _ _ _ _ Hcs Hs Hm1 Hm2 Hmod1 Hmod2 Hf).
Defined.
